(** * The connection facade and decorator layer of the DaVinci Resolve MCP server

    A shallow embedding of [src/core/errors.py], [src/core/connection.py] and
    [src/core/decorators.py], and the properties of the facade that the
    specification states about them; then the tools of [src/tools/resolve.py],
    [timeline.py], [timeline_item.py] and [media.py] that are built on the
    lookups, each under its decorators.

    Conventions of the embedding.
    - A Python call that may raise returns an [Outcome]; a method that only
      reads the object graph of the application lives in [R] (an outcome and
      the calls it made); a method or function that changes the process (the
      singleton, the module globals, the application) lives in [M].
    - The scripting API hands out either [None] or an object handle, and
      object handles are truthy: an API result is an [option].  Lists may in
      addition be empty, which Python also treats as false.
    - Exceptions are the instances of Python's [Exception], the class the
      [except] clauses of the sources name; [exn_str] is what [str(e)]
      yields.
    - Strings are byte strings.  [lower] changes the letters A-Z only.  The
      names it is compared with are ASCII and contain no letter k, and the
      only character outside ASCII that [str.lower] maps to an ASCII letter
      alone is the Kelvin sign (to k), so membership among those names is
      decided exactly as [str.lower] decides it.
    - [Event]s record the calls the properties speak about: the import and
      [scriptapp], page switches, the calls that look into a folder, and
      log lines. *)

From Stdlib Require Import String Ascii List ZArith Bool Lia DecimalString.
From stdpp Require Import gmap strings list.
Import ListNotations.

Set Default Proof Using "Type".

(** ** Strings *)

Definition lower_ascii (c : ascii) : ascii :=
  let n := nat_of_ascii c in
  if (65 <=? n)%nat && (n <=? 90)%nat then ascii_of_nat (n + 32) else c.

Fixpoint lower (s : string) : string :=
  match s with
  | EmptyString => EmptyString
  | String c s' => String (lower_ascii c) (lower s')
  end.

(** [sep.join(l)] *)
Definition join (sep : string) (l : list string) : string := String.concat sep l.

(** [x in l] for strings *)
Definition str_in (x : string) (l : list string) : bool :=
  existsb (String.eqb x) l.

(** ** errors.py *)

Inductive exc_class :=
| ResolveError
| NotConnectedError
| NoProjectError
| NoTimelineError
| NoMediaPoolError
| ClipNotFoundError
| TimelineItemNotFoundError
| InvalidParameterError
| ImportError
| ValueError
| AttributeError
| OtherException (name : string).

(** [issubclass(c, ResolveError)] *)
Definition is_ResolveError (c : exc_class) : bool :=
  match c with
  | ResolveError | NotConnectedError | NoProjectError | NoTimelineError
  | NoMediaPoolError | ClipNotFoundError | TimelineItemNotFoundError
  | InvalidParameterError => true
  | ImportError | ValueError | AttributeError | OtherException _ => false
  end.

(** [issubclass(c, ImportError)] *)
Definition is_ImportError (c : exc_class) : bool :=
  match c with ImportError => true | _ => false end.

Record exn := mk_exn { exn_class : exc_class; exn_str : string }.

Definition exc_class_eqb (a b : exc_class) : bool :=
  match a, b with
  | ResolveError, ResolveError | NotConnectedError, NotConnectedError
  | NoProjectError, NoProjectError | NoTimelineError, NoTimelineError
  | NoMediaPoolError, NoMediaPoolError | ClipNotFoundError, ClipNotFoundError
  | TimelineItemNotFoundError, TimelineItemNotFoundError
  | InvalidParameterError, InvalidParameterError
  | ImportError, ImportError | ValueError, ValueError
  | AttributeError, AttributeError => true
  | OtherException n, OtherException m => String.eqb n m
  | _, _ => false
  end.

(** The constructors, with the default messages of their [__init__]. *)
Definition new_NotConnectedError (message : option string) : exn :=
  mk_exn NotConnectedError (default "Not connected to DaVinci Resolve" message).
Definition new_NoProjectError (message : option string) : exn :=
  mk_exn NoProjectError (default "No project currently open" message).
Definition new_NoTimelineError (message : option string) : exn :=
  mk_exn NoTimelineError (default "No timeline currently active" message).
Definition new_NoMediaPoolError (message : option string) : exn :=
  mk_exn NoMediaPoolError (default "Failed to get Media Pool" message).
Definition new_ClipNotFoundError (clip_name : string) : exn :=
  mk_exn ClipNotFoundError ("Clip '" +:+ clip_name +:+ "' not found").
Definition new_TimelineItemNotFoundError (item_id : string) : exn :=
  mk_exn TimelineItemNotFoundError
    ("Timeline item with ID '" +:+ item_id +:+ "' not found").
Definition new_InvalidParameterError (param_name : string)
    (valid_values : option (list string)) : exn :=
  let msg := "Invalid value for '" +:+ param_name +:+ "'" in
  let msg :=
    match valid_values with
    | Some ((_ :: _) as vs) => msg +:+ ". Must be one of: " +:+ join ", " vs
    | _ => msg
    end in
  mk_exn InvalidParameterError msg.
Definition new_ValueError (message : string) : exn := mk_exn ValueError message.

(** ** Outcomes of a call *)

Inductive Outcome (A : Type) :=
| Return (a : A)
| Raise (e : exn).
Arguments Return {A} a.
Arguments Raise {A} e.

Definition raises {A} (o : Outcome A) (c : exc_class) : Prop :=
  exists e, o = Raise e /\ exn_class e = c.

Definition returns {A} (o : Outcome A) : Prop := exists a, o = Return a.

(** ** The object graph handed out by the scripting API *)

Record Clip := mkClip { clip_key : nat; Clip_GetName : string }.

#[warnings="-register-all"]
Inductive Folder :=
| mkFolder (name : string) (clip_list : option (list Clip))
           (sub_folder_list : option (list Folder)).

Definition Folder_GetName (f : Folder) : string :=
  match f with mkFolder n _ _ => n end.
Definition GetClipList (f : Folder) : option (list Clip) :=
  match f with mkFolder _ c _ => c end.
Definition GetSubFolderList (f : Folder) : option (list Folder) :=
  match f with mkFolder _ _ s => s end.

Record TimelineItem := mkItem { item_key : nat; GetUniqueId : string }.

Record Timeline := mkTimeline {
  Timeline_GetName : string;
  GetTrackCount : string -> Z;
  GetItemListInTrack : string -> Z -> option (list TimelineItem)
}.

Record MediaPool := mkMediaPool { GetRootFolder : Folder }.

Inductive Gallery := gallery_handle (key : nat).
Inductive MediaStorage := media_storage_handle (key : nat).

Record Project := mkProject {
  GetMediaPool : option MediaPool;
  GetCurrentTimeline : option Timeline;
  GetGallery : option Gallery
}.

Record ProjectManager := mkProjectManager { GetCurrentProject : option Project }.

(** The application behind the handle.  [Resolve] is the handle together with
    the state of the application it refers to; [OpenPage] is the one call of
    this file that changes it. *)
Class ResolveAPI (Resolve : Type) := {
  GetProductName : Resolve -> Outcome string;
  GetVersionString : Resolve -> Outcome string;
  GetProjectManager : Resolve -> option ProjectManager;
  GetMediaStorage : Resolve -> option MediaStorage;
  GetCurrentPage : Resolve -> option string;
  OpenPage : string -> Resolve -> bool * Resolve
}.

(** ** Observable calls *)

Inductive Event :=
| ev_import_DaVinciResolveScript
| ev_scriptapp
| ev_GetCurrentPage
| ev_OpenPage (page : string)
| ev_switch_page (page : string)
| ev_GetRootFolder
| ev_GetClipList (folder : Folder)
| ev_GetSubFolderList (folder : Folder)
| ev_Folder_GetName (folder : Folder)
| ev_Clip_GetName (clip : Clip)
| ev_log_info (msg : string)
| ev_log_error (msg : string).

(** ** Read-only computations: an outcome and the calls made *)

Definition R (A : Type) : Type := Outcome A * list Event.

Definition retR {A} (a : A) : R A := (Return a, []).
Definition raiseR {A} (e : exn) : R A := (Raise e, []).
Definition emitR (ev : Event) : R unit := (Return tt, [ev]).
Definition bindR {A B} (m : R A) (k : A -> R B) : R B :=
  match m with
  | (Return a, t) => let '(o, t') := k a in (o, t ++ t')
  | (Raise e, t) => (Raise e, t)
  end.

Notation "x <~ m ;; k" := (bindR m (fun x => k))
  (at level 100, m at next level, k at level 200, right associativity).
Notation "m ~;; k" := (bindR m (fun _ => k))
  (at level 100, k at level 200, right associativity).

(** Python truthiness of an API result. *)
Definition truthy_list {A} (l : option (list A)) : bool :=
  match l with Some (_ :: _) => true | _ => false end.
Definition truthy_str (s : option string) : bool :=
  match s with Some (String _ _) => true | _ => false end.

Section Facade.
Context {Resolve : Type} {api : ResolveAPI Resolve}.

(** ** connection.py: the [ResolveConnection] object *)

Record ResolveConnection := mkConn {
  _initialized : bool;
  _resolve : option Resolve;
  _api_path : option string;
  _lib_path : option string;
  _modules_path : option string
}.

Definition is_connected (self : ResolveConnection) : bool :=
  match _resolve self with Some _ => true | None => false end.

Definition resolve (self : ResolveConnection) : R Resolve :=
  match _resolve self with
  | None => raiseR (new_NotConnectedError None)
  | Some r => retR r
  end.

Definition project_manager (self : ResolveConnection) : R ProjectManager :=
  r <~ resolve self ;;
  match GetProjectManager r with
  | None => raiseR (new_NotConnectedError (Some "Failed to get Project Manager"))
  | Some pm => retR pm
  end.

Definition current_project (self : ResolveConnection) : R Project :=
  pm <~ project_manager self ;;
  match GetCurrentProject pm with
  | None => raiseR (new_NoProjectError None)
  | Some project => retR project
  end.

Definition media_pool (self : ResolveConnection) : R MediaPool :=
  project <~ current_project self ;;
  match GetMediaPool project with
  | None => raiseR (new_NoMediaPoolError None)
  | Some mp => retR mp
  end.

Definition current_timeline (self : ResolveConnection) : R Timeline :=
  project <~ current_project self ;;
  match GetCurrentTimeline project with
  | None => raiseR (new_NoTimelineError None)
  | Some timeline => retR timeline
  end.



(** *** Utility methods *)

Definition get_current_page (self : ResolveConnection) : R (option string) :=
  r <~ resolve self ;;
  emitR ev_GetCurrentPage ~;;
  retR (GetCurrentPage r).

(** [for x in xs: acc.extend(f(x))] *)
Definition extend_each {A B : Type} (f : A -> R (list B))
    : list A -> list B -> R (list B) :=
  fix loop (xs : list A) (acc : list B) : R (list B) :=
    match xs with
    | [] => retR acc
    | x :: rest => more <~ f x ;; loop rest (acc ++ more)
    end.

(** The body of [get_all_clips] once [folder] is known.  The recursive call
    always passes a folder object, so the test [folder is None] can only
    succeed at the outermost call, which [get_all_clips] below performs. *)
Fixpoint get_all_clips_from (folder : Folder) : R (list Clip) :=
  match folder with
  | mkFolder _ clip_list sub_folder_list =>
      emitR (ev_GetClipList folder) ~;;
      let clips :=
        if truthy_list clip_list then [] ++ default [] clip_list else [] in
      emitR (ev_GetSubFolderList folder) ~;;
      match sub_folder_list with
      | Some subs => extend_each get_all_clips_from subs clips
      | None => extend_each get_all_clips_from [] clips
      end
  end.

Definition get_all_clips (self : ResolveConnection) (folder : option Folder)
    : R (list Clip) :=
  match folder with
  | None =>
      mp <~ media_pool self ;;
      emitR ev_GetRootFolder ~;;
      get_all_clips_from (GetRootFolder mp)
  | Some folder => get_all_clips_from folder
  end.

Fixpoint get_all_folders_from (folder : Folder) : R (list Folder) :=
  match folder with
  | mkFolder _ _ sub_folder_list =>
      let folders := [folder] in
      emitR (ev_GetSubFolderList folder) ~;;
      match sub_folder_list with
      | Some subs => extend_each get_all_folders_from subs folders
      | None => extend_each get_all_folders_from [] folders
      end
  end.

Definition get_all_folders (self : ResolveConnection) (folder : option Folder)
    : R (list Folder) :=
  match folder with
  | None =>
      mp <~ media_pool self ;;
      emitR ev_GetRootFolder ~;;
      get_all_folders_from (GetRootFolder mp)
  | Some folder => get_all_folders_from folder
  end.

(** [for clip in clips: if clip.GetName() == name: return clip] *)
Fixpoint first_clip_named (name : string) (clips : list Clip)
    : R (option Clip) :=
  match clips with
  | [] => retR None
  | clip :: rest =>
      emitR (ev_Clip_GetName clip) ~;;
      if String.eqb (Clip_GetName clip) name then retR (Some clip)
      else first_clip_named name rest
  end.

Definition find_clip_by_name (self : ResolveConnection) (name : string)
    : R (option Clip) :=
  clips <~ get_all_clips self None ;;
  first_clip_named name clips.

Fixpoint first_folder_named (name : string) (folders : list Folder)
    : R (option Folder) :=
  match folders with
  | [] => retR None
  | folder :: rest =>
      emitR (ev_Folder_GetName folder) ~;;
      if String.eqb (Folder_GetName folder) name then retR (Some folder)
      else first_folder_named name rest
  end.

Definition find_folder_by_name (self : ResolveConnection) (name : string)
    : R (option Folder) :=
  if str_in (lower name) ["root"; "master"] then
    mp <~ media_pool self ;;
    emitR ev_GetRootFolder ~;;
    retR (Some (GetRootFolder mp))
  else
    folders <~ get_all_folders self None ;;
    first_folder_named name folders.

(** [range(start, stop)] *)
Definition range (start stop : Z) : list Z :=
  map (fun i => (start + Z.of_nat i)%Z) (seq 0 (Z.to_nat (stop - start))).

(** [str(x)] of a value that is a string already *)
Definition str (x : string) : string := x.

Definition Found : Type := TimelineItem * string * Z.

(** The three nested loops of [find_timeline_item_by_id]; [Some] is the
    [return] inside the innermost loop. *)
Fixpoint scan_items (item_id track_type : string) (track_idx : Z)
    (items : list TimelineItem) : option Found :=
  match items with
  | [] => None
  | item :: rest =>
      if String.eqb (str (GetUniqueId item)) item_id
      then Some (item, track_type, track_idx)
      else scan_items item_id track_type track_idx rest
  end.

Fixpoint scan_tracks (timeline : Timeline) (item_id track_type : string)
    (idxs : list Z) : option Found :=
  match idxs with
  | [] => None
  | track_idx :: rest =>
      let items := GetItemListInTrack timeline track_type track_idx in
      match
        (if truthy_list items
         then scan_items item_id track_type track_idx (default [] items)
         else None)
      with
      | Some found => Some found
      | None => scan_tracks timeline item_id track_type rest
      end
  end.

Fixpoint scan_types (timeline : Timeline) (item_id : string)
    (types : list string) : option Found :=
  match types with
  | [] => None
  | track_type :: rest =>
      let track_count := GetTrackCount timeline track_type in
      match scan_tracks timeline item_id track_type
              (range 1 (track_count + 1)) with
      | Some found => Some found
      | None => scan_types timeline item_id rest
      end
  end.

Definition find_timeline_item_by_id (self : ResolveConnection)
    (item_id : string) : R (option Found) :=
  timeline <~ current_timeline self ;;
  retR (scan_types timeline item_id ["video"; "audio"; "subtitle"]).

(** ** The process: heap, class attribute, module global, environment *)

(** The dictionary returned by [get_resolve_paths()]. *)
Record Paths := mkPaths {
  api_path : string;
  lib_path : string;
  modules_path : string
}.

(** What [import DaVinciResolveScript] and [scriptapp("Resolve")] do when
    they are run. *)
Record DvrScript := mkDvr {
  import_outcome : Outcome unit;
  scriptapp_outcome : Outcome (option Resolve)
}.

(** [heap] holds the [ResolveConnection] objects by address,
    [cls_instance] is the class attribute [ResolveConnection._instance] and
    [_connection] the module-level global.  [platform_paths] is the result
    of [src.utils.platform.get_resolve_paths()]; that helper is not part of
    the sources embedded here and is taken as a parameter of the process. *)
Record Process := mkProcess {
  heap : gmap nat ResolveConnection;
  cls_instance : option nat;
  _connection : option nat;
  os_environ : gmap string string;
  sys_path : list string;
  platform_paths : Paths;
  DaVinciResolveScript : DvrScript
}.

Definition set_heap (h : gmap nat ResolveConnection) (p : Process) : Process :=
  mkProcess h (cls_instance p) (_connection p) (os_environ p) (sys_path p)
            (platform_paths p) (DaVinciResolveScript p).
Definition set_cls_instance (i : option nat) (p : Process) : Process :=
  mkProcess (heap p) i (_connection p) (os_environ p) (sys_path p)
            (platform_paths p) (DaVinciResolveScript p).
Definition set__connection (c : option nat) (p : Process) : Process :=
  mkProcess (heap p) (cls_instance p) c (os_environ p) (sys_path p)
            (platform_paths p) (DaVinciResolveScript p).
Definition set_os_environ (e : gmap string string) (p : Process) : Process :=
  mkProcess (heap p) (cls_instance p) (_connection p) e (sys_path p)
            (platform_paths p) (DaVinciResolveScript p).
Definition set_sys_path (l : list string) (p : Process) : Process :=
  mkProcess (heap p) (cls_instance p) (_connection p) (os_environ p) l
            (platform_paths p) (DaVinciResolveScript p).

(** ** Computations that change the process *)

Definition M (A : Type) : Type := Process -> Outcome A * Process * list Event.

Definition retM {A} (a : A) : M A := fun p => (Return a, p, []).
Definition raiseM {A} (e : exn) : M A := fun p => (Raise e, p, []).
Definition emitM (ev : Event) : M unit := fun p => (Return tt, p, [ev]).
Definition getM : M Process := fun p => (Return p, p, []).
Definition modifyM (f : Process -> Process) : M unit :=
  fun p => (Return tt, f p, []).
Definition bindM {A B} (m : M A) (k : A -> M B) : M B :=
  fun p =>
    match m p with
    | (Return a, p1, t1) => let '(o, p2, t2) := k a p1 in (o, p2, t1 ++ t2)
    | (Raise e, p1, t1) => (Raise e, p1, t1)
    end.

Notation "x <- m ;; k" := (bindM m (fun x => k))
  (at level 100, m at next level, k at level 200, right associativity).
Notation "m ;;; k" := (bindM m (fun _ => k))
  (at level 100, k at level 200, right associativity).

Definition liftOutcome {A} (o : Outcome A) : M A := fun p => (o, p, []).

(** [try: body  except Exception as e: handler(e)] *)
Definition try_except {A} (body : M A) (handler : exn -> M A) : M A :=
  fun p =>
    match body p with
    | (Return a, p1, t1) => (Return a, p1, t1)
    | (Raise e, p1, t1) => let '(o, p2, t2) := handler e p1 in (o, p2, t1 ++ t2)
    end.

(** [try: body  finally: final]: [final] runs on every exit path of [body];
    an exception of [final] replaces the result of [body]. *)
Definition try_finally {A} (body : M A) (final : M unit) : M A :=
  fun p =>
    let '(o, p1, t1) := body p in
    match final p1 with
    | (Return _, p2, t2) => (o, p2, t1 ++ t2)
    | (Raise e, p2, t2) => (Raise e, p2, t1 ++ t2)
    end.

(** Reading and writing the object at an address.  An address that is not
    allocated has no counterpart in Python, where a reference keeps its
    object alive. *)
Definition load (self : nat) : M ResolveConnection :=
  fun p =>
    match heap p !! self with
    | Some o => (Return o, p, [])
    | None => (Raise (mk_exn (OtherException "ReferenceError") "dangling"), p, [])
    end.

Definition store (self : nat) (o : ResolveConnection) : M unit :=
  modifyM (fun p => set_heap (<[self := o]> (heap p)) p).

(** A read-only method run on the object at [self]. *)
Definition liftR {A} (self : nat) (f : ResolveConnection -> R A) : M A :=
  o <- load self ;;
  fun p => let '(r, t) := f o in (r, p, t).

(** The object [o] after the assignment [self._resolve = v]. *)
Definition with__resolve (o : ResolveConnection) (v : option Resolve)
    : ResolveConnection :=
  mkConn (_initialized o) v (_api_path o) (_lib_path o) (_modules_path o).

Definition set__resolve (self : nat) (v : option Resolve) : M unit :=
  o <- load self ;;
  store self (with__resolve o v).

(** *** [ResolveConnection._setup_paths] *)
Definition _setup_paths (self : nat) : M unit :=
  p <- getM ;;
  let paths := platform_paths p in
  o <- load self ;;
  store self (mkConn (_initialized o) (_resolve o) (Some (api_path paths))
                     (Some (lib_path paths)) (Some (modules_path paths))) ;;;
  modifyM (fun p =>
    set_os_environ (<["RESOLVE_SCRIPT_LIB" := lib_path paths]>
                     (<["RESOLVE_SCRIPT_API" := api_path paths]> (os_environ p)))
                   p) ;;;
  p <- getM ;;
  if str_in (modules_path paths) (sys_path p) then retM tt
  else modifyM (set_sys_path (modules_path paths :: sys_path p)).

(** *** [ResolveConnection._connect] *)
Definition _connect_try (self : nat) : M unit :=
  p <- getM ;;
  emitM ev_import_DaVinciResolveScript ;;;
  liftOutcome (import_outcome (DaVinciResolveScript p)) ;;;
  emitM ev_scriptapp ;;;
  h <- liftOutcome (scriptapp_outcome (DaVinciResolveScript p)) ;;
  set__resolve self h ;;;
  match h with
  | Some r =>
      product <- liftOutcome (GetProductName r) ;;
      version <- liftOutcome (GetVersionString r) ;;
      emitM (ev_log_info
               ("Connected to DaVinci Resolve: " +:+ product +:+ " " +:+ version))
  | None =>
      emitM (ev_log_error
               "Failed to get Resolve object. Is DaVinci Resolve running?")
  end.

Definition _connect (self : nat) : M unit :=
  try_except (_connect_try self)
    (fun e =>
       if is_ImportError (exn_class e) then
         emitM (ev_log_error
                  ("Failed to import DaVinciResolveScript: " +:+ exn_str e)) ;;;
         set__resolve self None
       else
         emitM (ev_log_error
                  ("Unexpected error connecting to Resolve: " +:+ exn_str e)) ;;;
         set__resolve self None).

Definition reconnect (self : nat) : M bool :=
  _connect self ;;;
  liftR self (fun o => retR (is_connected o)).

(** *** [ResolveConnection.switch_page] *)
Definition valid_pages : list string :=
  ["media"; "cut"; "edit"; "fusion"; "color"; "fairlight"; "deliver"].

Definition switch_page (self : nat) (page : string) : M bool :=
  emitM (ev_switch_page page) ;;;
  if negb (str_in (lower page) valid_pages) then
    raiseM (new_ValueError
              ("Invalid page. Must be one of: " +:+ join ", " valid_pages))
  else
    r <- liftR self resolve ;;
    emitM (ev_OpenPage (lower page)) ;;;
    let '(ok, r') := OpenPage (lower page) r in
    set__resolve self (Some r') ;;;
    retM ok.

(** *** Construction: [__new__], [__init__], [ResolveConnection()] *)
Definition fresh_address (h : gmap nat ResolveConnection) : nat :=
  fresh (dom h).

(** The object [super().__new__(cls)] returns, with [_initialized] set to
    [False]; [_resolve] reads the class attribute, which is [None]. *)
Definition blank : ResolveConnection := mkConn false None None None None.

Definition __new__ : M nat :=
  p <- getM ;;
  match cls_instance p with
  | None =>
      let a := fresh_address (heap p) in
      store a blank ;;;
      modifyM (set_cls_instance (Some a)) ;;;
      retM a
  | Some a => retM a
  end.

Definition __init__ (self : nat) : M unit :=
  o <- load self ;;
  if _initialized o then retM tt
  else
    store self (mkConn true (_resolve o) (_api_path o) (_lib_path o)
                       (_modules_path o)) ;;;
    _setup_paths self ;;;
    _connect self.

Definition new_ResolveConnection : M nat :=
  self <- __new__ ;;
  __init__ self ;;;
  retM self.

(** *** [get_resolve] *)
Definition get_resolve : M nat :=
  p <- getM ;;
  match _connection p with
  | None =>
      c <- new_ResolveConnection ;;
      modifyM (set__connection (Some c)) ;;;
      retM c
  | Some c => retM c
  end.

(** ** decorators.py *)

(** The value of type [str | T] is a sum; [inl] is the error string. *)
Definition handle_resolve_errors {Args T : Type} (func_name : string)
    (func : Args -> M T) (args : Args) : M (string + T) :=
  try_except (v <- func args ;; retM (inr v))
    (fun e =>
       if is_ResolveError (exn_class e) then
         emitM (ev_log_error
                  ("Resolve error in " +:+ func_name +:+ ": " +:+ exn_str e)) ;;;
         retM (inl ("Error: " +:+ exn_str e))
       else
         emitM (ev_log_error
                  ("Unexpected error in " +:+ func_name +:+ ": " +:+ exn_str e)) ;;;
         retM (inl ("Error: " +:+ exn_str e))).

(** The injectors pass [conn], [project], [timeline] and [media_pool] as
    keyword arguments; here they are further arguments of [func]. *)
Definition require_resolve {Args T : Type} (func : Args -> nat -> M T)
    (args : Args) : M T :=
  conn <- get_resolve ;;
  connected <- liftR conn (fun o => retR (is_connected o)) ;;
  if negb connected then raiseM (new_NotConnectedError None)
  else func args conn.

Definition require_project {Args T : Type}
    (func : Args -> nat -> Project -> M T) (args : Args) : M T :=
  conn <- get_resolve ;;
  connected <- liftR conn (fun o => retR (is_connected o)) ;;
  if negb connected then raiseM (new_NotConnectedError None)
  else
    project <- liftR conn current_project ;;
    func args conn project.

Definition require_timeline {Args T : Type}
    (func : Args -> nat -> Project -> Timeline -> M T) (args : Args) : M T :=
  conn <- get_resolve ;;
  connected <- liftR conn (fun o => retR (is_connected o)) ;;
  if negb connected then raiseM (new_NotConnectedError None)
  else
    project <- liftR conn current_project ;;
    timeline <- liftR conn current_timeline ;;
    func args conn project timeline.

Definition require_media_pool {Args T : Type}
    (func : Args -> nat -> Project -> MediaPool -> M T) (args : Args) : M T :=
  conn <- get_resolve ;;
  connected <- liftR conn (fun o => retR (is_connected o)) ;;
  if negb connected then raiseM (new_NotConnectedError None)
  else
    project <- liftR conn current_project ;;
    media_pool <- liftR conn media_pool ;;
    func args conn project media_pool.

(** [original_page != page], where [original_page] may be [None] *)
Definition py_ne (original_page : option string) (page : string) : bool :=
  match original_page with
  | Some s => negb (String.eqb s page)
  | None => true
  end.

Definition with_page {Args T : Type} (page : string) (func : Args -> M T)
    (args : Args) : M T :=
  conn <- get_resolve ;;
  original_page <- liftR conn get_current_page ;;
  try_finally
    ((if py_ne original_page page
      then switch_page conn page ;;; retM tt
      else retM tt) ;;;
     func args)
    (if truthy_str original_page && py_ne original_page page
     then switch_page conn (default "" original_page) ;;; retM tt
     else retM tt).

End Facade.

Arguments ResolveConnection : clear implicits.
Arguments DvrScript : clear implicits.
Arguments Process : clear implicits.
Arguments M : clear implicits.

(** ** A simulated application, to run the definitions on *)

Record SimApp := mkSim {
  sim_product : Outcome string;
  sim_project_manager : option ProjectManager;
  sim_media_storage : option MediaStorage;
  sim_page : option string;
  sim_refused : list string
}.

(** [OpenPage] succeeds and changes the page unless the page is refused. *)
Definition sim_OpenPage (page : string) (a : SimApp) : bool * SimApp :=
  if str_in page (sim_refused a) then (false, a)
  else (true, mkSim (sim_product a) (sim_project_manager a)
                    (sim_media_storage a) (Some page) (sim_refused a)).

#[export] Instance SimApp_api : ResolveAPI SimApp := {|
  GetProductName := sim_product;
  GetVersionString := fun _ => Return "20.0";
  GetProjectManager := sim_project_manager;
  GetMediaStorage := sim_media_storage;
  GetCurrentPage := sim_page;
  OpenPage := sim_OpenPage
|}.

Definition sim_conn (r : option SimApp) : ResolveConnection SimApp :=
  mkConn true r None None None.

(** An application with no project open, and one with a project that has
    neither media pool, timeline nor gallery. *)
Definition sim_no_project : SimApp :=
  mkSim (Return "DaVinci Resolve") (Some (mkProjectManager None)) None
        (Some "edit") [].

Definition sim_bare_project : SimApp :=
  mkSim (Return "DaVinci Resolve")
        (Some (mkProjectManager (Some (mkProject None None None)))) None
        (Some "edit") [].

(** ** Reference definitions, in the words of the specification *)

Definition Clip_eq_dec (a b : Clip) : {a = b} + {a <> b}.
Proof. repeat decide equality. Defined.

(** Pre-order listing: a folder's own clips, then those of its sub-folders
    in the order of the sub-folder list; an absent list counts as empty. *)
Fixpoint clips_preorder (folder : Folder) : list Clip :=
  match folder with
  | mkFolder _ clip_list sub_folder_list =>
      default [] clip_list ++
      match sub_folder_list with
      | None => []
      | Some subs => concat (map clips_preorder subs)
      end
  end.

(** Pre-order listing of the folders: the folder, then its sub-folders. *)
Fixpoint folders_preorder (folder : Folder) : list Folder :=
  match folder with
  | mkFolder _ _ sub_folder_list =>
      folder ::
      match sub_folder_list with
      | None => []
      | Some subs => concat (map folders_preorder subs)
      end
  end.

(** M: the number of clips in the tree. *)
Fixpoint total_clips (folder : Folder) : nat :=
  match folder with
  | mkFolder _ clip_list sub_folder_list =>
      (length (default [] clip_list) +
       match sub_folder_list with
       | None => 0
       | Some subs => list_sum (map total_clips subs)
       end)%nat
  end.

(** N: the number of folders in the tree. *)
Fixpoint total_folders (folder : Folder) : nat :=
  match folder with
  | mkFolder _ _ sub_folder_list =>
      S match sub_folder_list with
        | None => 0
        | Some subs => list_sum (map total_folders subs)
        end
  end.

(** How often clip [c] is held by the folders of the tree. *)
Fixpoint occurrences (c : Clip) (folder : Folder) : nat :=
  match folder with
  | mkFolder _ clip_list sub_folder_list =>
      (count_occ Clip_eq_dec (default [] clip_list) c +
       match sub_folder_list with
       | None => 0
       | Some subs => list_sum (map (occurrences c) subs)
       end)%nat
  end.

(** The calls that look into a folder. *)
Definition is_folder_scan (ev : Event) : bool :=
  match ev with
  | ev_GetClipList _ | ev_GetSubFolderList _ | ev_Folder_GetName _ => true
  | _ => false
  end.

Definition eq_nocase (a b : string) : Prop := lower a = lower b.

Definition is_page_name (page : string) : Prop :=
  exists n, In n valid_pages /\ eq_nocase page n.

Definition is_root_alias (name : string) : Prop :=
  eq_nocase name "root" \/ eq_nocase name "master".

(** The order in which the items of a timeline are scanned: track types
    video, audio, subtitle; within a type the tracks 1, 2, ..., count;
    within a track its item list in order. *)
Definition track_types : list string := ["video"; "audio"; "subtitle"].

Definition track_numbers (timeline : Timeline) (track_type : string) : list Z :=
  map Z.of_nat (seq 1 (Z.to_nat (GetTrackCount timeline track_type))).

Definition track_entries (timeline : Timeline) (track_type : string)
    (track_idx : Z) : list Found :=
  map (fun item => (item, track_type, track_idx))
      (default [] (GetItemListInTrack timeline track_type track_idx)).

Definition scan_order (timeline : Timeline) : list Found :=
  flat_map (fun track_type =>
              flat_map (track_entries timeline track_type)
                       (track_numbers timeline track_type))
           track_types.

Definition has_id (item_id : string) (found : Found) : bool :=
  String.eqb (GetUniqueId (fst (fst found))) item_id.

(** The pages [switch_page] was called with, in order. *)
Definition switch_page_calls (t : list Event) : list string :=
  omap (fun ev => match ev with ev_switch_page p => Some p | _ => None end) t.

(** The pages forwarded to the application, in order. *)
Definition OpenPage_calls (t : list Event) : list string :=
  omap (fun ev => match ev with ev_OpenPage p => Some p | _ => None end) t.

(** The handle a connect attempt leaves in [_resolve]: the one returned by
    [scriptapp], provided nothing in the [try] block raised. *)
Definition acquired {Resolve : Type} {api : ResolveAPI Resolve}
    (d : DvrScript Resolve) : option Resolve :=
  match import_outcome d, scriptapp_outcome d with
  | Return _, Return (Some r) =>
      match GetProductName r, GetVersionString r with
      | Return _, Return _ => Some r
      | _, _ => None
      end
  | _, _ => None
  end.

(** A small media pool: the root holds two clips and two bins; bin A has no
    clip list at all and one nested bin, bin B has an empty sub-folder list. *)
Definition clip_a : Clip := mkClip 1 "a.mov".
Definition clip_b : Clip := mkClip 2 "b.mov".
Definition clip_c : Clip := mkClip 3 "c.mov".
Definition clip_d : Clip := mkClip 4 "d.mov".

Definition bin_A1 : Folder := mkFolder "Takes" (Some [clip_c]) None.
Definition bin_A : Folder := mkFolder "Day 1" None (Some [bin_A1]).
Definition bin_B : Folder := mkFolder "Day 2" (Some [clip_d]) (Some []).
Definition sim_root : Folder :=
  mkFolder "Master" (Some [clip_a; clip_b]) (Some [bin_A; bin_B]).

(** A timeline with two video tracks and one audio track; the identifier
    "id-dup" is carried by an item of video track 2 and by one of audio
    track 1. *)
Definition item_x : TimelineItem := mkItem 10 "id-x".
Definition item_dup_video : TimelineItem := mkItem 11 "id-dup".
Definition item_y : TimelineItem := mkItem 13 "id-y".
Definition item_dup_audio : TimelineItem := mkItem 12 "id-dup".

Definition sim_timeline : Timeline :=
  mkTimeline "Timeline 1"
    (fun track_type =>
       if String.eqb track_type "video" then 2%Z
       else if String.eqb track_type "audio" then 1%Z else 0%Z)
    (fun track_type track_idx =>
       if String.eqb track_type "video" then
         if (track_idx =? 1)%Z then Some [item_x]
         else if (track_idx =? 2)%Z then Some [item_dup_video; item_y]
         else None
       else if String.eqb track_type "audio" then
         if (track_idx =? 1)%Z then Some [item_dup_audio] else None
       else None).

(** An application with a project open that has the media pool and the
    timeline above. *)
Definition sim_full : SimApp :=
  mkSim (Return "DaVinci Resolve")
        (Some (mkProjectManager
                 (Some (mkProject (Some (mkMediaPool sim_root))
                                  (Some sim_timeline)
                                  (Some (gallery_handle 1))))))
        (Some (media_storage_handle 1)) (Some "edit") [].

(** The message of the exception [switch_page] raises. *)
Definition invalid_page_message : string :=
  "Invalid page. Must be one of: media, cut, edit, fusion, color, fairlight, deliver".

(** Processes to run the definitions on: one in which nothing has been
    constructed yet, and one whose singleton (at address 0) is connected to
    [app]. *)
Definition sim_paths : Paths :=
  mkPaths "/opt/resolve/Developer/Scripting"
          "/opt/resolve/libs/Fusion/fusionscript.so"
          "/opt/resolve/Developer/Scripting/Modules".

Definition sim_running (app : SimApp) : DvrScript SimApp :=
  mkDvr (Return tt) (Return (Some app)).

Definition sim_not_installed : DvrScript SimApp :=
  mkDvr (Raise (mk_exn ImportError "No module named 'DaVinciResolveScript'"))
        (Return None).

Definition sim_fresh (d : DvrScript SimApp) : Process SimApp :=
  mkProcess ∅ None None ∅ [] sim_paths d.

Definition sim_process (app : SimApp) (d : DvrScript SimApp) : Process SimApp :=
  mkProcess {[0 := sim_conn (Some app)]} (Some 0) (Some 0) ∅ [] sim_paths d.

(** A handler that raises, and one that returns. *)
Definition failing_handler (_ : unit) : M SimApp string :=
  raiseM (mk_exn (OtherException "RuntimeError") "boom").

Definition greeting_handler (name : string) : M SimApp string :=
  retM ("hello " +:+ name).

(** ** connection.py: [find_timeline_by_name] *)

Module MNotations.
Notation "x <- m ;; k" := (bindM m (fun x => k))
  (at level 100, m at next level, k at level 200, right associativity).
Notation "m ;;; k" := (bindM m (fun _ => k))
  (at level 100, k at level 200, right associativity).
End MNotations.

(** [str(n)] of a non-negative integer *)
Definition str_nat (n : nat) : string :=
  NilZero.string_of_uint (Nat.to_uint n).

(** The timeline list of a project, as its handle exposes it. *)
Class ProjectAPI := {
  GetTimelineCount : Project -> Z;
  GetTimelineByIndex : Project -> Z -> option Timeline
}.

Section MoreFacade.
Context {Resolve : Type} {api : ResolveAPI Resolve} {papi : ProjectAPI}.

(** The loop of [find_timeline_by_name]; [Some] is its [return]. *)
Fixpoint scan_timelines (project : Project) (name : string) (idxs : list Z)
    : option Timeline :=
  match idxs with
  | [] => None
  | i :: rest =>
      match GetTimelineByIndex project i with
      | Some timeline =>
          if String.eqb (Timeline_GetName timeline) name then Some timeline
          else scan_timelines project name rest
      | None => scan_timelines project name rest
      end
  end.

Definition find_timeline_by_name (self : ResolveConnection Resolve)
    (name : string) : R (option Timeline) :=
  project <~ current_project self ;;
  retR (scan_timelines project name (range 1 (GetTimelineCount project + 1))).

End MoreFacade.

(** ** decorators.py: [validate_params] *)

Section ValidateParams.
Context {Resolve : Type} {api : ResolveAPI Resolve}.
(** [V] are the argument values other than [None], [show] is [str(value)],
    and a validator may itself raise. *)
Context {V : Type} (show : V -> string).

(** [dict(pairs)]: a later pair replaces an earlier one with the same key. *)
Definition dict_of (pairs : list (string * option V)) : gmap string (option V) :=
  foldl (fun m kv => <[kv.1 := kv.2]> m) ∅ pairs.

(** [full_kwargs = dict(zip(params, args)); full_kwargs.update(kwargs)] *)
Definition full_kwargs (params : list string) (args : list (option V))
    (kwargs : gmap string (option V)) : gmap string (option V) :=
  kwargs ∪ dict_of (zip params args).

(** The loop over [validators.items()], in the order the validators were
    given. *)
Fixpoint run_validators (validators : list (string * (V -> Outcome bool)))
    (full : gmap string (option V)) : Outcome unit :=
  match validators with
  | [] => Return tt
  | (param_name, validator) :: rest =>
      match full !! param_name with
      | Some (Some value) =>
          match validator value with
          | Return true => run_validators rest full
          | Return false =>
              Raise (new_ValueError
                       ("Invalid value for parameter '" +:+ param_name
                        +:+ "': " +:+ show value))
          | Raise e => Raise e
          end
      | Some None | None => run_validators rest full
      end
  end.

(** [params] are the names of [inspect.signature(func).parameters]. *)
Definition validate_params {T : Type}
    (validators : list (string * (V -> Outcome bool)))
    (params : list string)
    (func : list (option V) -> gmap string (option V) -> M Resolve T)
    (args : list (option V)) (kwargs : gmap string (option V)) : M Resolve T :=
  bindM (liftOutcome (run_validators validators (full_kwargs params args kwargs)))
        (fun _ => func args kwargs).

End ValidateParams.

(** ** The tools that call the lookups *)

(** Calls of the scripting API made by the tools below; each may change the
    process and may raise. *)
Class ToolsAPI (Resolve : Type) := {
  TimelineItem_GetName : TimelineItem -> string;
  CopyGrades : TimelineItem -> list TimelineItem -> M Resolve bool;
  DeleteClips : MediaPool -> list Clip -> M Resolve bool;
  MoveClips : MediaPool -> list Clip -> Folder -> M Resolve bool;
  SetCurrentTimeline : Project -> Timeline -> M Resolve bool
}.

(** [try: body  except ValueError: handler] *)
Definition try_except_ValueError {Resolve A : Type} (body : M Resolve A)
    (handler : M Resolve A) : M Resolve A :=
  fun p =>
    match body p with
    | (Raise e, p1, t1) =>
        match exn_class e with
        | ValueError => let '(o, p2, t2) := handler p1 in (o, p2, t1 ++ t2)
        | _ => (Raise e, p1, t1)
        end
    | r => r
    end.

(** tools/resolve.py *)
Module resolve_tools.
Section Defs.
Context {Resolve : Type} {api : ResolveAPI Resolve}.
Import MNotations.

(** [switch_page] under its decorators. *)
Definition switch_page_func (page : string) (conn : nat) : M Resolve string :=
  let page := lower page in
  if negb (str_in page valid_pages) then
    retM ("Error: Invalid page. Must be one of: " +:+ join ", " valid_pages)
  else
    ok <- switch_page conn page ;;
    if ok then retM ("Successfully switched to " +:+ page +:+ " page")
    else retM ("Failed to switch to " +:+ page +:+ " page").

Definition switch_page : string -> M Resolve (string + string) :=
  handle_resolve_errors "switch_page" (require_resolve switch_page_func).

End Defs.
End resolve_tools.

(** tools/timeline_item.py *)
Module timeline_item_tools.
Section Defs.
Context {Resolve : Type} {api : ResolveAPI Resolve} {tapi : ToolsAPI Resolve}.
Import MNotations.

Definition _get_item_by_id (conn : nat) (item_id : string)
    : M Resolve TimelineItem :=
  result <- liftR conn (fun o => find_timeline_item_by_id o item_id) ;;
  match result with
  | None =>
      raiseM (new_ValueError
                ("Timeline item with ID '" +:+ item_id +:+ "' not found"))
  | Some (item, _, _) => retM item
  end.

(** [get_item_name] under its decorators. *)
Definition get_item_name_func (item_id : string) (conn : nat)
    (project : Project) (timeline : Timeline) : M Resolve string :=
  item <- _get_item_by_id conn item_id ;;
  retM (TimelineItem_GetName item).

Definition get_item_name : string -> M Resolve (string + string) :=
  handle_resolve_errors "get_item_name" (require_timeline get_item_name_func).

(** The loop of [copy_grades] that collects the targets. *)
Fixpoint collect_targets (conn : nat) (target_item_ids : list string)
    (targets : list TimelineItem) : M Resolve (list TimelineItem) :=
  match target_item_ids with
  | [] => retM targets
  | tid :: rest =>
      targets' <- try_except_ValueError
                    (item <- _get_item_by_id conn tid ;;
                     retM (targets ++ [item]))
                    (retM targets) ;;
      collect_targets conn rest targets'
  end.

(** [copy_grades] under its decorators. *)
Definition copy_grades_func (ids : string * list string) (conn : nat)
    (project : Project) (timeline : Timeline) : M Resolve string :=
  let '(source_item_id, target_item_ids) := ids in
  source <- _get_item_by_id conn source_item_id ;;
  targets <- collect_targets conn target_item_ids [] ;;
  match targets with
  | [] => retM "Error: No valid target items found"
  | _ :: _ =>
      ok <- CopyGrades source targets ;;
      if ok then
        retM ("Successfully copied grades to " +:+ str_nat (length targets)
              +:+ " item(s)")
      else retM "Failed to copy grades"
  end.

Definition copy_grades : string * list string -> M Resolve (string + string) :=
  handle_resolve_errors "copy_grades" (require_timeline copy_grades_func).

End Defs.
End timeline_item_tools.

(** tools/media.py *)
Module media_tools.
Section Defs.
Context {Resolve : Type} {api : ResolveAPI Resolve} {tapi : ToolsAPI Resolve}.
Import MNotations.

(** [for name in clip_names: clip = conn.find_clip_by_name(name);
    if clip: clips.append(clip)] *)
Fixpoint collect_clips (conn : nat) (clip_names : list string)
    (clips : list Clip) : M Resolve (list Clip) :=
  match clip_names with
  | [] => retM clips
  | name :: rest =>
      clip <- liftR conn (fun o => find_clip_by_name o name) ;;
      collect_clips conn rest
        (match clip with Some c => clips ++ [c] | None => clips end)
  end.

(** [delete_clips] under its decorators. *)
Definition delete_clips_func (clip_names : list string) (conn : nat)
    (project : Project) (media_pool : MediaPool) : M Resolve string :=
  clips_to_delete <- collect_clips conn clip_names [] ;;
  match clips_to_delete with
  | [] => retM "Error: No matching clips found"
  | _ :: _ =>
      ok <- DeleteClips media_pool clips_to_delete ;;
      if ok then
        retM ("Successfully deleted " +:+ str_nat (length clips_to_delete)
              +:+ " clip(s)")
      else retM "Failed to delete clips"
  end.

Definition delete_clips : list string -> M Resolve (string + string) :=
  handle_resolve_errors "delete_clips" (require_media_pool delete_clips_func).

(** [move_clips] under its decorators. *)
Definition move_clips_func (a : list string * string) (conn : nat)
    (project : Project) (media_pool : MediaPool) : M Resolve string :=
  let '(clip_names, target_folder_name) := a in
  clips <- collect_clips conn clip_names [] ;;
  match clips with
  | [] => retM "Error: No matching clips found"
  | _ :: _ =>
      target_folder <-
        liftR conn (fun o => find_folder_by_name o target_folder_name) ;;
      match target_folder with
      | None =>
          retM ("Error: Folder '" +:+ target_folder_name +:+ "' not found")
      | Some folder =>
          ok <- MoveClips media_pool clips folder ;;
          if ok then
            retM ("Successfully moved " +:+ str_nat (length clips)
                  +:+ " clip(s)")
          else retM "Failed to move clips"
      end
  end.

Definition move_clips : list string * string -> M Resolve (string + string) :=
  handle_resolve_errors "move_clips" (require_media_pool move_clips_func).

End Defs.
End media_tools.

(** tools/timeline.py *)
Module timeline_tools.
Section Defs.
Context {Resolve : Type} {api : ResolveAPI Resolve} {papi : ProjectAPI}
        {tapi : ToolsAPI Resolve}.
Import MNotations.

(** [set_current_timeline] under its decorators. *)
Definition set_current_timeline_func (name : string) (conn : nat)
    (project : Project) : M Resolve string :=
  timeline <- liftR conn (fun o => find_timeline_by_name o name) ;;
  match timeline with
  | None => retM ("Error: Timeline '" +:+ name +:+ "' not found")
  | Some timeline =>
      ok <- SetCurrentTimeline project timeline ;;
      if ok then retM ("Successfully switched to timeline '" +:+ name +:+ "'")
      else retM ("Failed to switch to timeline '" +:+ name +:+ "'")
  end.

Definition set_current_timeline : string -> M Resolve (string + string) :=
  handle_resolve_errors "set_current_timeline"
    (require_project set_current_timeline_func).

(** [get_track_count] under its decorators; [valid_types] is printed as a
    Python list. *)
Definition get_track_count_func (track_type : string) (conn : nat)
    (project : Project) (timeline : Timeline) : M Resolve Z :=
  let valid_types := ["video"; "audio"; "subtitle"] in
  if negb (str_in track_type valid_types) then
    raiseM (new_ValueError
              "Invalid track type. Must be one of: ['video', 'audio', 'subtitle']")
  else retM (GetTrackCount timeline track_type).

Definition get_track_count : string -> M Resolve (string + Z) :=
  handle_resolve_errors "get_track_count"
    (require_timeline get_track_count_func).

End Defs.
End timeline_tools.

(** ** Reference definitions for the tools *)

(** The item with the given identifier that is scanned first. *)
Definition first_item_with_id (timeline : Timeline) (item_id : string)
    : option TimelineItem :=
  match find (has_id item_id) (scan_order timeline) with
  | Some (item, _, _) => Some item
  | None => None
  end.

(** What the lookups by name yield on a media pool. *)
Definition clip_named (mp : MediaPool) (name : string) : option Clip :=
  find (fun clip => String.eqb (Clip_GetName clip) name)
       (clips_preorder (GetRootFolder mp)).

Definition folder_named (mp : MediaPool) (name : string) : option Folder :=
  if str_in (lower name) ["root"; "master"] then Some (GetRootFolder mp)
  else find (fun folder => String.eqb (Folder_GetName folder) name)
            (folders_preorder (GetRootFolder mp)).

(** The timelines of a project in index order 1..count, and the first one of
    a given name. *)
Definition timelines_in_order `{ProjectAPI} (project : Project) : list Timeline :=
  omap (GetTimelineByIndex project)
       (map Z.of_nat (seq 1 (Z.to_nat (GetTimelineCount project)))).

Definition timeline_named `{ProjectAPI} (project : Project) (name : string)
    : option Timeline :=
  find (fun timeline => String.eqb (Timeline_GetName timeline) name)
       (timelines_in_order project).

(** ** The simulated application, continued *)

(** The project hands out four timeline indices: none at index 2, and the
    name "Timeline 1" both at index 3 and at index 4. *)
Definition sim_timeline_b : Timeline :=
  mkTimeline "Assembly" (fun _ => 0%Z) (fun _ _ => None).

Definition sim_timeline_c : Timeline :=
  mkTimeline "Timeline 1" (fun _ => 1%Z) (fun _ _ => None).

#[export] Instance Sim_ProjectAPI : ProjectAPI := {|
  GetTimelineCount := fun _ => 4%Z;
  GetTimelineByIndex := fun _ i =>
    if (i =? 1)%Z then Some sim_timeline_b
    else if (i =? 3)%Z then Some sim_timeline
    else if (i =? 4)%Z then Some sim_timeline_c
    else None
|}.

(** Every call of the tools succeeds and leaves the process alone. *)
#[export] Instance SimApp_tools : ToolsAPI SimApp := {|
  TimelineItem_GetName := fun item => "shot " +:+ GetUniqueId item;
  CopyGrades := fun _ _ => retM true;
  DeleteClips := fun _ _ => retM true;
  MoveClips := fun _ _ _ => retM true;
  SetCurrentTimeline := fun _ _ => retM true
|}.


(** The number of times [import DaVinciResolveScript] was run, which is how
    a connect attempt begins. *)
Definition import_attempts (t : list Event) : nat :=
  length (List.filter
            (fun ev => match ev with
                       | ev_import_DaVinciResolveScript => true
                       | _ => false
                       end) t).

(** A process whose singleton holds no handle. *)
Definition sim_offline : Process SimApp :=
  mkProcess {[0 := sim_conn None]} (Some 0) (Some 0) ∅ [] sim_paths
            sim_not_installed.

(** Validators on numbers: a frame below 100 and a track from 1 on. *)
Definition sim_validators : list (string * (nat -> Outcome bool)) :=
  [("frame", fun frame => Return (frame <? 100));
   ("track", fun track => Return (1 <=? track))].

(** * Properties *)

(** ** The accessors *)

Section AccessorFacts.
Context {Resolve : Type} {api : ResolveAPI Resolve}.
Implicit Types (self : ResolveConnection Resolve) (e : exn).

Lemma bindR_raise {A B} (m : R A) (k : A -> R B) e :
  fst m = Raise e -> fst (bindR m k) = Raise e.
Proof.
  destruct m as [[a|e'] t]; simpl; intros H; [discriminate|].
  now injection H as ->.
Qed.

Lemma bindR_return {A B} (m : R A) (k : A -> R B) a :
  fst m = Return a -> fst (bindR m k) = fst (k a).
Proof.
  destruct m as [[a'|e'] t]; simpl; intros H; [|discriminate].
  injection H as ->. now destruct (k a).
Qed.

Lemma resolve_None self :
  _resolve self = None -> fst (resolve self) = Raise (new_NotConnectedError None).
Proof. unfold resolve. now intros ->. Qed.

Lemma resolve_Some self r :
  _resolve self = Some r -> resolve self = retR r.
Proof. unfold resolve. now intros ->. Qed.

Lemma project_manager_revalidates self e :
  fst (resolve self) = Raise e -> fst (project_manager self) = Raise e.
Proof. apply bindR_raise. Qed.

Lemma current_project_revalidates self e :
  fst (project_manager self) = Raise e -> fst (current_project self) = Raise e.
Proof. apply bindR_raise. Qed.

Lemma current_timeline_revalidates self e :
  fst (current_project self) = Raise e -> fst (current_timeline self) = Raise e.
Proof. apply bindR_raise. Qed.




Lemma current_project_disconnected self :
  _resolve self = None ->
  fst (current_project self) = Raise (new_NotConnectedError None).
Proof.
  intros H. apply current_project_revalidates, project_manager_revalidates.
  now apply resolve_None.
Qed.

Lemma project_manager_Some self r pm :
  _resolve self = Some r -> GetProjectManager r = Some pm ->
  project_manager self = retR pm.
Proof.
  intros Hr Hpm. unfold project_manager. rewrite (resolve_Some _ _ Hr).
  simpl. now rewrite Hpm.
Qed.

Lemma current_project_none_open self r pm :
  _resolve self = Some r -> GetProjectManager r = Some pm ->
  GetCurrentProject pm = None ->
  fst (current_project self) = Raise (new_NoProjectError None).
Proof.
  intros Hr Hpm Hnone. unfold current_project.
  rewrite (project_manager_Some _ _ _ Hr Hpm). simpl. now rewrite Hnone.
Qed.


(** C1: the missing-layer conditions form a strict hierarchy.  With the
    application handle absent, [current_project] raises not-connected and not
    no-project; connected with no project open, [current_timeline] raises
    no-project and not no-timeline; and every accessor fails with the very
    failure of the accessor one layer up whenever that one fails, so the
    shallower layers are validated before its own. *)
Theorem missing_layer_hierarchy self :
  (_resolve self = None ->
     fst (current_project self) = Raise (new_NotConnectedError None)
     /\ ~ raises (fst (current_project self)) NoProjectError)
  /\ (forall r pm,
        _resolve self = Some r -> GetProjectManager r = Some pm ->
        GetCurrentProject pm = None ->
        fst (current_timeline self) = Raise (new_NoProjectError None)
        /\ ~ raises (fst (current_timeline self)) NoTimelineError)
  /\ (forall e, fst (resolve self) = Raise e ->
                fst (project_manager self) = Raise e)
  /\ (forall e, fst (project_manager self) = Raise e ->
                fst (current_project self) = Raise e)
  /\ (forall e, fst (current_project self) = Raise e ->
                fst (current_timeline self) = Raise e).
Proof.
  split; [|split; [|split; [|split]]].
  - intros H. pose proof (current_project_disconnected _ H) as E.
    split; [exact E|]. rewrite E. intros (e & He & Hc).
    injection He as <-. discriminate Hc.
  - intros r pm Hr Hpm Hnone.
    pose proof (current_timeline_revalidates _ _
                  (current_project_none_open _ _ _ Hr Hpm Hnone)) as E.
    split; [exact E|]. rewrite E. intros (e & He & Hc).
    injection He as <-. discriminate Hc.
  - apply project_manager_revalidates.
  - apply current_project_revalidates.
  - apply current_timeline_revalidates.
Qed.

End AccessorFacts.

Lemma missing_layer_hierarchy_witness :
  fst (current_project (sim_conn None)) = Raise (new_NotConnectedError None)
  /\ fst (current_timeline (sim_conn (Some sim_no_project)))
     = Raise (new_NoProjectError None).
Proof.
  split.
  - apply (proj1 (missing_layer_hierarchy (sim_conn None))). reflexivity.
  - apply (proj1 (proj2 (missing_layer_hierarchy (sim_conn (Some sim_no_project))))
             sim_no_project (mkProjectManager None)); reflexivity.
Defined.





(** ** The recursive traversals *)

(** Induction over a folder tree, with the hypothesis for every sub-folder. *)
Fixpoint Folder_nested_ind (P : Folder -> Prop)
    (step : forall name clip_list sub_folder_list,
        Forall P (default [] sub_folder_list) ->
        P (mkFolder name clip_list sub_folder_list))
    (folder : Folder) : P folder :=
  match folder with
  | mkFolder name clip_list sub_folder_list =>
      step name clip_list sub_folder_list
        match sub_folder_list
              return Forall P (default [] sub_folder_list) with
        | None => @List.Forall_nil _ P
        | Some subs =>
            (fix all (l : list Folder) : Forall P l :=
               match l with
               | [] => @List.Forall_nil _ P
               | x :: rest =>
                   @List.Forall_cons _ P x rest
                     (Folder_nested_ind P step x) (all rest)
               end) subs
        end
  end.

Lemma extend_each_fst {A B : Type} (f : A -> R (list B)) (g : A -> list B)
    (xs : list A) :
  Forall (fun x => fst (f x) = Return (g x)) xs ->
  forall acc, fst (extend_each f xs acc) = Return (acc ++ concat (map g xs)).
Proof.
  induction 1 as [|x rest Hx _ IH]; intros acc; simpl.
  - now rewrite app_nil_r.
  - rewrite (bindR_return _ _ _ Hx), IH. now rewrite <- app_assoc.
Qed.

Lemma own_clips_truthy (clip_list : option (list Clip)) :
  (if truthy_list clip_list then [] ++ default [] clip_list else [])
  = default [] clip_list.
Proof. now destruct clip_list as [[|c l]|]. Qed.

Lemma get_all_clips_from_preorder (folder : Folder) :
  fst (get_all_clips_from folder) = Return (clips_preorder folder).
Proof.
  induction folder as [name clip_list subs IH] using Folder_nested_ind.
  simpl. rewrite own_clips_truthy.
  destruct subs as [subs|]; simpl in *.
  - destruct (extend_each get_all_clips_from subs (default [] clip_list))
      as [o t] eqn:E.
    simpl. change o with (fst (o, t)). rewrite <- E.
    now apply extend_each_fst.
  - now rewrite app_nil_r.
Qed.

Lemma get_all_folders_from_preorder (folder : Folder) :
  fst (get_all_folders_from folder) = Return (folders_preorder folder).
Proof.
  induction folder as [name clip_list subs IH] using Folder_nested_ind.
  simpl. destruct subs as [subs|]; simpl in *.
  - destruct (extend_each get_all_folders_from subs
                [mkFolder name clip_list (Some subs)]) as [o t] eqn:E.
    simpl. change o with (fst (o, t)). rewrite <- E.
    now rewrite (extend_each_fst _ folders_preorder).
  - reflexivity.
Qed.

Lemma list_sum_map_Forall {A : Type} (f g : A -> nat) (l : list A) :
  Forall (fun x => f x = g x) l -> list_sum (map f l) = list_sum (map g l).
Proof. induction 1 as [|x l Hx _ IH]; simpl; congruence. Qed.

Lemma count_occ_concat (c : Clip) (ls : list (list Clip)) :
  count_occ Clip_eq_dec (concat ls) c
  = list_sum (map (fun l => count_occ Clip_eq_dec l c) ls).
Proof.
  induction ls as [|l ls IH]; simpl; [reflexivity|].
  now rewrite count_occ_app, IH.
Qed.

Lemma length_clips_preorder (folder : Folder) :
  length (clips_preorder folder) = total_clips folder.
Proof.
  induction folder as [name clip_list subs IH] using Folder_nested_ind.
  simpl. rewrite length_app. f_equal.
  destruct subs as [subs|]; simpl in *; [|reflexivity].
  rewrite length_concat, map_map. now apply list_sum_map_Forall.
Qed.

Lemma count_occ_clips_preorder (c : Clip) (folder : Folder) :
  count_occ Clip_eq_dec (clips_preorder folder) c = occurrences c folder.
Proof.
  induction folder as [name clip_list subs IH] using Folder_nested_ind.
  simpl. rewrite count_occ_app. f_equal.
  destruct subs as [subs|]; simpl in *; [|reflexivity].
  rewrite count_occ_concat, map_map. now apply list_sum_map_Forall.
Qed.

(** C3: on a folder tree holding M clips, [get_all_clips] returns, without
    raising, a list of exactly M entries in which every clip occurs as often
    as the folders of the tree hold it (so the list has no repetition when
    no clip is held twice); the list is the pre-order listing (own clips first, then the sub-folders in list
    order); an absent clip list or sub-folder list gives what the empty list
    gives; and without a folder the traversal starts at the root folder of
    the media pool. *)
Theorem get_all_clips_preorder
    {Resolve : Type} {api : ResolveAPI Resolve}
    (self : ResolveConnection Resolve) (folder : Folder) :
  (exists clips,
      fst (get_all_clips self (Some folder)) = Return clips
      /\ length clips = total_clips folder
      /\ (forall c, count_occ Clip_eq_dec clips c = occurrences c folder)
      /\ ((forall c, occurrences c folder <= 1) -> List.NoDup clips)
      /\ clips = clips_preorder folder)
  /\ (forall name clip_list subs,
        fst (get_all_clips self (Some (mkFolder name clip_list subs)))
        = Return (default [] clip_list
                  ++ concat (map clips_preorder (default [] subs))))
  /\ (forall name clip_list subs,
        fst (get_all_clips self (Some (mkFolder name None subs)))
        = fst (get_all_clips self (Some (mkFolder name (Some []) subs)))
        /\ fst (get_all_clips self (Some (mkFolder name clip_list None)))
           = fst (get_all_clips self (Some (mkFolder name clip_list (Some [])))))
  /\ (forall mp, fst (media_pool self) = Return mp ->
        fst (get_all_clips self None)
        = Return (clips_preorder (GetRootFolder mp))).
Proof.
  split; [|split; [|split]].
  - exists (clips_preorder folder). split; [|split; [|split; [|split]]].
    + apply get_all_clips_from_preorder.
    + apply length_clips_preorder.
    + intros c. apply count_occ_clips_preorder.
    + intros Hone. apply (NoDup_count_occ Clip_eq_dec). intros c.
      rewrite count_occ_clips_preorder. apply Hone.
    + reflexivity.
  - intros name clip_list subs. unfold get_all_clips.
    rewrite get_all_clips_from_preorder. simpl. now destruct subs.
  - intros name clip_list subs. unfold get_all_clips.
    now rewrite !get_all_clips_from_preorder.
  - intros mp Hmp. unfold get_all_clips.
    rewrite (bindR_return _ _ _ Hmp).
    rewrite (bindR_return (emitR ev_GetRootFolder) _ tt eq_refl).
    apply get_all_clips_from_preorder.
Qed.

Lemma get_all_clips_preorder_witness :
  fst (get_all_clips (sim_conn (Some sim_full)) None)
  = Return [clip_a; clip_b; clip_c; clip_d].
Proof.
  apply (proj2 (proj2 (proj2 (get_all_clips_preorder
                                (sim_conn (Some sim_full)) sim_root)))
           (mkMediaPool sim_root)).
  reflexivity.
Defined.

(** ** The error-to-string wrapper *)

(** C2: whatever the handler and its arguments, the wrapped handler returns:
    the handler's own value when the handler returns, and the string
    "Error: <message>" built from the exception when the handler raises a
    domain failure or any other exception.  The process is left as the
    handler left it, and the failure is logged with the handler's name. *)
Theorem handle_resolve_errors_never_raises
    {Resolve : Type} {api : ResolveAPI Resolve} {Args T : Type}
    (func_name : string) (func : Args -> M Resolve T) (args : Args)
    (p : Process Resolve) :
  returns (fst (fst (handle_resolve_errors func_name func args p)))
  /\ match func args p with
     | (Return v, p', t) =>
         handle_resolve_errors func_name func args p = (Return (inr v), p', t)
     | (Raise e, p', t) =>
         handle_resolve_errors func_name func args p
         = (Return (inl ("Error: " +:+ exn_str e)), p',
            t ++ [ev_log_error
                    ((if is_ResolveError (exn_class e)
                      then "Resolve error in " else "Unexpected error in ")
                     +:+ func_name +:+ ": " +:+ exn_str e)])
     end.
Proof.
  unfold handle_resolve_errors, try_except, bindM, retM, emitM.
  destruct (func args p) as [[[v|e] p'] t]; simpl.
  - rewrite app_nil_r. split; [now eexists | reflexivity].
  - destruct (is_ResolveError (exn_class e)); simpl;
      (split; [now eexists | reflexivity]).
Qed.

Lemma handle_resolve_errors_never_raises_witness :
  fst (fst (handle_resolve_errors "fail" failing_handler tt
              (sim_fresh sim_not_installed)))
  = Return (inl "Error: boom")
  /\ fst (fst (handle_resolve_errors "greet" greeting_handler "Resolve"
                 (sim_fresh sim_not_installed)))
     = Return (inr "hello Resolve").
Proof.
  pose proof (proj2 (handle_resolve_errors_never_raises "fail" failing_handler
                       tt (sim_fresh sim_not_installed))) as H1.
  pose proof (proj2 (handle_resolve_errors_never_raises "greet" greeting_handler
                       "Resolve" (sim_fresh sim_not_installed))) as H2.
  remember (handle_resolve_errors "fail" failing_handler tt _) as w1 eqn:E1
    in H1 |- *.
  remember (handle_resolve_errors "greet" greeting_handler "Resolve" _) as w2
    eqn:E2 in H2 |- *.
  vm_compute in H1. vm_compute in H2. rewrite H1, H2. split; reflexivity.
Defined.

(** ** Finding a timeline item *)

Lemma range_from_1 (n : Z) :
  range 1 (n + 1) = map Z.of_nat (seq 1 (Z.to_nat n)).
Proof.
  unfold range. replace (n + 1 - 1)%Z with n by lia.
  rewrite <- seq_shift, map_map. apply map_ext. intros i. lia.
Qed.

Lemma find_app_first {A : Type} (f : A -> bool) (l1 l2 : list A) :
  find f (l1 ++ l2)
  = match find f l1 with Some x => Some x | None => find f l2 end.
Proof.
  induction l1 as [|x l1 IH]; simpl; [reflexivity|].
  now destruct (f x).
Qed.

Lemma find_first_split {A : Type} (f : A -> bool) (l : list A) (x : A) :
  find f l = Some x ->
  f x = true
  /\ exists before after,
       l = before ++ x :: after /\ Forall (fun y => f y = false) before.
Proof.
  induction l as [|y l IH]; simpl; [discriminate|].
  destruct (f y) eqn:Hy.
  - intros [= ->]. split; [exact Hy|]. exists [], l. split; [reflexivity|].
    constructor.
  - intros H. destruct (IH H) as (Hx & before & after & -> & Hall).
    split; [exact Hx|]. exists (y :: before), after.
    split; [reflexivity|]. now constructor.
Qed.

Lemma scan_items_find (item_id track_type : string) (track_idx : Z)
    (items : list TimelineItem) :
  scan_items item_id track_type track_idx items
  = find (has_id item_id)
         (map (fun item => (item, track_type, track_idx)) items).
Proof.
  induction items as [|item rest IH]; simpl; [reflexivity|].
  unfold has_id at 1. simpl. unfold str.
  now destruct (String.eqb (GetUniqueId item) item_id).
Qed.

Lemma scan_track_find (timeline : Timeline) (item_id track_type : string)
    (track_idx : Z) :
  (if truthy_list (GetItemListInTrack timeline track_type track_idx)
   then scan_items item_id track_type track_idx
          (default [] (GetItemListInTrack timeline track_type track_idx))
   else None)
  = find (has_id item_id) (track_entries timeline track_type track_idx).
Proof.
  unfold track_entries.
  destruct (GetItemListInTrack timeline track_type track_idx) as [[|i l]|];
    simpl; try reflexivity.
  apply (scan_items_find item_id track_type track_idx (i :: l)).
Qed.

Lemma scan_tracks_find (timeline : Timeline) (item_id track_type : string)
    (idxs : list Z) :
  scan_tracks timeline item_id track_type idxs
  = find (has_id item_id) (flat_map (track_entries timeline track_type) idxs).
Proof.
  induction idxs as [|idx rest IH]; simpl; [reflexivity|].
  rewrite scan_track_find, find_app_first, IH.
  reflexivity.
Qed.

Lemma scan_types_find (timeline : Timeline) (item_id : string)
    (types : list string) :
  scan_types timeline item_id types
  = find (has_id item_id)
      (flat_map (fun track_type =>
                   flat_map (track_entries timeline track_type)
                            (track_numbers timeline track_type))
                types).
Proof.
  induction types as [|track_type rest IH]; simpl; [reflexivity|].
  rewrite scan_tracks_find, range_from_1, find_app_first, IH.
  reflexivity.
Qed.

Lemma has_id_true (item_id : string) (found : Found) :
  has_id item_id found = true <-> str (GetUniqueId (fst (fst found))) = item_id.
Proof. unfold has_id, str. apply String.eqb_eq. Qed.

Lemma in_scan_order (timeline : Timeline) (item : TimelineItem)
    (track_type : string) (track_idx : Z) :
  In (item, track_type, track_idx) (scan_order timeline)
  <-> In track_type track_types
      /\ (1 <= track_idx <= GetTrackCount timeline track_type)%Z
      /\ exists items,
           GetItemListInTrack timeline track_type track_idx = Some items
           /\ In item items.
Proof.
  unfold scan_order. rewrite in_flat_map. split.
  - intros (ty & Hty & Hin). apply in_flat_map in Hin as (idx & Hidx & Hin).
    unfold track_entries in Hin.
    apply in_map_iff in Hin as (it & [= -> -> ->] & Hit).
    split; [exact Hty|].
    unfold track_numbers in Hidx. apply in_map_iff in Hidx as (k & <- & Hk).
    apply in_seq in Hk. split; [lia|].
    destruct (GetItemListInTrack timeline track_type (Z.of_nat k)) as [items|];
      [|destruct Hit]. now exists items.
  - intros (Hty & Hidx & items & Hitems & Hit).
    exists track_type. split; [exact Hty|]. apply in_flat_map.
    exists track_idx. split.
    + unfold track_numbers. apply in_map_iff. exists (Z.to_nat track_idx).
      split; [lia|]. apply in_seq. lia.
    + unfold track_entries. rewrite Hitems. simpl.
      apply in_map_iff. now exists item.
Qed.

(** C5: with a current timeline, [find_timeline_item_by_id] returns the first
    entry of the scan order (video, then audio, then subtitle tracks, each
    by ascending 1-based track number, each track's items in list order)
    whose identifier, as a string, equals [item_id], as the triple of the
    item, its track type and its track number; every entry scanned before it
    has another identifier, so of two items sharing an identifier the
    earlier-scanned one is returned; and the result is absent exactly when
    no scanned item has the identifier. *)
Theorem find_timeline_item_by_id_first_match
    {Resolve : Type} {api : ResolveAPI Resolve}
    (self : ResolveConnection Resolve) (timeline : Timeline) (item_id : string) :
  fst (current_timeline self) = Return timeline ->
  fst (find_timeline_item_by_id self item_id)
  = Return (find (has_id item_id) (scan_order timeline))
  /\ (forall item track_type track_idx,
        find (has_id item_id) (scan_order timeline)
        = Some (item, track_type, track_idx) ->
        str (GetUniqueId item) = item_id
        /\ exists before after,
             scan_order timeline = before ++ (item, track_type, track_idx) :: after
             /\ Forall (fun earlier =>
                          str (GetUniqueId (fst (fst earlier))) <> item_id)
                       before)
  /\ (find (has_id item_id) (scan_order timeline) = None <->
      forall item track_type track_idx,
        In (item, track_type, track_idx) (scan_order timeline) ->
        str (GetUniqueId item) <> item_id)
  /\ (forall item track_type track_idx,
        In (item, track_type, track_idx) (scan_order timeline)
        <-> In track_type ["video"; "audio"; "subtitle"]
            /\ (1 <= track_idx <= GetTrackCount timeline track_type)%Z
            /\ exists items,
                 GetItemListInTrack timeline track_type track_idx = Some items
                 /\ In item items).
Proof.
  intros Htl. split; [|split; [|split]].
  - unfold find_timeline_item_by_id. rewrite (bindR_return _ _ _ Htl).
    unfold retR. cbn [fst]. f_equal.
    apply (scan_types_find timeline item_id track_types).
  - intros item track_type track_idx Hfind.
    destruct (find_first_split _ _ _ Hfind) as (Hid & before & after & E & Hall).
    split; [now apply has_id_true in Hid|].
    exists before, after. split; [exact E|].
    eapply List.Forall_impl; [|exact Hall]. simpl. intros found Hf Heq.
    apply has_id_true in Heq. congruence.
  - split.
    + intros Hnone item track_type track_idx Hin Heq.
      pose proof (find_none _ _ Hnone _ Hin) as Hf.
      apply (has_id_true item_id (item, track_type, track_idx)) in Heq.
      congruence.
    + intros Hall. destruct (find (has_id item_id) (scan_order timeline))
        as [[[item track_type] track_idx]|] eqn:E; [|reflexivity].
      destruct (find_some _ _ E) as [Hin Hid].
      apply has_id_true in Hid. now destruct (Hall _ _ _ Hin).
  - apply in_scan_order.
Qed.

Lemma find_timeline_item_by_id_first_match_witness :
  fst (find_timeline_item_by_id (sim_conn (Some sim_full)) "id-dup")
  = Return (Some (item_dup_video, "video", 2%Z))
  /\ fst (find_timeline_item_by_id (sim_conn (Some sim_full)) "id-none")
     = Return None.
Proof.
  split.
  - exact (proj1 (find_timeline_item_by_id_first_match
                    (sim_conn (Some sim_full)) sim_timeline "id-dup" eq_refl)).
  - exact (proj1 (find_timeline_item_by_id_first_match
                    (sim_conn (Some sim_full)) sim_timeline "id-none" eq_refl)).
Defined.

(** ** Finding a folder *)

Lemma accessors_make_no_calls
    {Resolve : Type} {api : ResolveAPI Resolve} (self : ResolveConnection Resolve) :
  snd (media_pool self) = [].
Proof.
  unfold media_pool, current_project, project_manager, resolve.
  destruct (_resolve self) as [r|]; simpl; [|reflexivity].
  destruct (GetProjectManager r) as [pm|]; simpl; [|reflexivity].
  destruct (GetCurrentProject pm) as [project|]; simpl; [|reflexivity].
  now destruct (GetMediaPool project).
Qed.

Lemma str_in_root_alias (name : string) :
  str_in (lower name) ["root"; "master"] = true <-> is_root_alias name.
Proof.
  unfold str_in, is_root_alias, eq_nocase. simpl.
  rewrite !orb_true_iff, !String.eqb_eq. intuition discriminate.
Qed.

Lemma first_folder_named_find (name : string) (folders : list Folder) :
  fst (first_folder_named name folders)
  = Return (find (fun folder => String.eqb (Folder_GetName folder) name) folders).
Proof.
  induction folders as [|folder rest IH]; simpl; [reflexivity|].
  destruct (String.eqb (Folder_GetName folder) name); simpl; [reflexivity|].
  destruct (first_folder_named name rest). exact IH.
Qed.

(** C7: with a media pool at hand, a name that is "root" or "master" up to
    case makes [find_folder_by_name] return the root folder after the single
    call [GetRootFolder], whatever the tree below it: no folder is looked
    into.  Any other name yields the first folder of the pre-order listing
    whose name equals it, every folder listed before it having another name,
    and an absent result exactly when no folder of the tree has that name. *)
Theorem find_folder_by_name_alias_or_first
    {Resolve : Type} {api : ResolveAPI Resolve}
    (self : ResolveConnection Resolve) (mp : MediaPool) (name : string) :
  fst (media_pool self) = Return mp ->
  (is_root_alias name ->
     find_folder_by_name self name
     = (Return (Some (GetRootFolder mp)), [ev_GetRootFolder])
     /\ filter is_folder_scan (snd (find_folder_by_name self name)) = [])
  /\ (~ is_root_alias name ->
      fst (find_folder_by_name self name)
      = Return (find (fun folder => String.eqb (Folder_GetName folder) name)
                     (folders_preorder (GetRootFolder mp)))
      /\ (forall folder,
            fst (find_folder_by_name self name) = Return (Some folder) ->
            Folder_GetName folder = name
            /\ exists before after,
                 folders_preorder (GetRootFolder mp) = before ++ folder :: after
                 /\ Forall (fun earlier => Folder_GetName earlier <> name) before)
      /\ (fst (find_folder_by_name self name) = Return None <->
          forall folder, In folder (folders_preorder (GetRootFolder mp)) ->
                         Folder_GetName folder <> name)).
Proof.
  intros Hmp.
  assert (Emp : media_pool self = (Return mp, [])).
  { rewrite <- Hmp, <- (accessors_make_no_calls self). now destruct (media_pool self). }
  split.
  - intros Halias. apply str_in_root_alias in Halias.
    unfold find_folder_by_name. rewrite Halias, Emp. split; reflexivity.
  - intros Hno.
    assert (Hstr : str_in (lower name) ["root"; "master"] = false).
    { destruct (str_in (lower name) ["root"; "master"]) eqn:E; [|reflexivity].
      now apply str_in_root_alias in E. }
    assert (E : fst (find_folder_by_name self name)
                = Return (find (fun folder => String.eqb (Folder_GetName folder) name)
                               (folders_preorder (GetRootFolder mp)))).
    { unfold find_folder_by_name, get_all_folders. rewrite Hstr, Emp.
      rewrite (bindR_return _ _ (folders_preorder (GetRootFolder mp))).
      - apply first_folder_named_find.
      - simpl. destruct (get_all_folders_from (GetRootFolder mp)) as [o t] eqn:Eg.
        simpl. change o with (fst (o, t)). rewrite <- Eg.
        apply get_all_folders_from_preorder. }
    split; [exact E|]. rewrite E. split.
    + intros folder [= Hfind].
      destruct (find_first_split _ _ _ Hfind) as (Hn & before & after & Hsplit & Hall).
      apply String.eqb_eq in Hn. split; [exact Hn|].
      exists before, after. split; [exact Hsplit|].
      eapply List.Forall_impl; [|exact Hall]. simpl. intros f Hf Heq.
      apply String.eqb_eq in Heq. congruence.
    + split.
      * intros [= Hnone] folder Hin Heq.
        pose proof (find_none _ _ Hnone _ Hin) as Hf. simpl in Hf.
        apply String.eqb_eq in Heq. congruence.
      * intros Hall. f_equal.
        destruct (find _ (folders_preorder (GetRootFolder mp))) as [f|] eqn:Ef;
          [|reflexivity].
        destruct (find_some _ _ Ef) as [Hin Hn]. apply String.eqb_eq in Hn.
        now destruct (Hall _ Hin).
Qed.

Lemma find_folder_by_name_alias_or_first_witness :
  find_folder_by_name (sim_conn (Some sim_full)) "MASTER"
  = (Return (Some sim_root), [ev_GetRootFolder])
  /\ fst (find_folder_by_name (sim_conn (Some sim_full)) "Day 2")
     = Return (Some bin_B).
Proof.
  pose proof (find_folder_by_name_alias_or_first
                (sim_conn (Some sim_full)) (mkMediaPool sim_root)) as H.
  split.
  - apply (proj1 (H "MASTER" eq_refl)). right. reflexivity.
  - apply (proj2 (H "Day 2" eq_refl)).
    intros [E|E]; discriminate E.
Defined.

(** ** Connecting, reconnecting, the singleton *)

Section ConnectFacts.
Context {Resolve : Type} {api : ResolveAPI Resolve}.
Implicit Types (p : Process Resolve) (o : ResolveConnection Resolve).

Lemma set__resolve_spec self v p o :
  heap p !! self = Some o ->
  set__resolve self v p
  = (Return tt, set_heap (<[self := with__resolve o v]> (heap p)) p, []).
Proof.
  intros H. unfold set__resolve, bindM, load, store, modifyM. now rewrite H.
Qed.

Lemma _connect_spec self p o :
  heap p !! self = Some o ->
  exists t,
    _connect self p
    = (Return tt,
       set_heap (<[self := with__resolve o (acquired (DaVinciResolveScript p))]>
                   (heap p)) p,
       ev_import_DaVinciResolveScript :: t).
Proof.
  intros H.
  unfold _connect, try_except, _connect_try, acquired, set__resolve, bindM,
    getM, emitM, liftOutcome, load, store, modifyM.
  destruct (import_outcome (DaVinciResolveScript p)) as [[]|e1];
    [destruct (scriptapp_outcome (DaVinciResolveScript p)) as [[r|]|e2];
     [destruct (GetProductName r) as [product|e3];
      [destruct (GetVersionString r) as [version|e4]|]| |]|];
    cbn; rewrite ?H; cbn; rewrite ?lookup_insert_eq; cbn;
    try match goal with |- context [is_ImportError ?c] =>
          destruct (is_ImportError c) end;
    cbn; rewrite ?H; cbn; rewrite ?lookup_insert_eq; cbn;
    rewrite ?insert_insert_eq.
  all: eexists; reflexivity.
Qed.

Lemma _setup_paths_spec self p o :
  heap p !! self = Some o ->
  exists p',
    _setup_paths self p = (Return tt, p', [])
    /\ heap p' = <[self := mkConn (_initialized o) (_resolve o)
                             (Some (api_path (platform_paths p)))
                             (Some (lib_path (platform_paths p)))
                             (Some (modules_path (platform_paths p)))]> (heap p)
    /\ cls_instance p' = cls_instance p
    /\ _connection p' = _connection p
    /\ DaVinciResolveScript p' = DaVinciResolveScript p.
Proof.
  intros H.
  unfold _setup_paths, bindM, getM, load, store, modifyM, retM.
  cbn. rewrite H. cbn.
  destruct (existsb _ _); cbn; eexists; repeat split.
Qed.

Lemma bindM_Return {A B} (m : M Resolve A) (k : A -> M Resolve B) p a p1 t1 :
  m p = (Return a, p1, t1) ->
  bindM m k p = (let '(o, p2, t2) := k a p1 in (o, p2, t1 ++ t2)).
Proof. intros H. unfold bindM. now rewrite H. Qed.

Lemma __new___first p :
  cls_instance p = None ->
  __new__ p
  = (Return (fresh_address (heap p)),
     set_cls_instance (Some (fresh_address (heap p)))
       (set_heap (<[fresh_address (heap p) := blank]> (heap p)) p),
     []).
Proof.
  intros Hc. unfold __new__, bindM, getM. rewrite Hc. reflexivity.
Qed.

Lemma __new___again p a :
  cls_instance p = Some a -> __new__ p = (Return a, p, []).
Proof.
  intros Hc. unfold __new__, bindM, getM. rewrite Hc. reflexivity.
Qed.

Lemma fresh_address_free (h : gmap nat (ResolveConnection Resolve)) :
  h !! fresh_address h = None.
Proof. apply not_elem_of_dom, is_fresh. Qed.

Lemma __init___first self p o :
  heap p !! self = Some o -> _initialized o = false ->
  exists p' conn t,
    __init__ self p = (Return tt, p', ev_import_DaVinciResolveScript :: t)
    /\ heap p' = <[self := conn]> (heap p)
    /\ _initialized conn = true
    /\ _resolve conn = acquired (DaVinciResolveScript p)
    /\ cls_instance p' = cls_instance p
    /\ _connection p' = _connection p.
Proof.
  intros H Hinit. unfold __init__.
  rewrite (bindM_Return _ _ p o p []) by (unfold load; now rewrite H).
  rewrite Hinit.
  set (o1 := mkConn true (_resolve o) (_api_path o) (_lib_path o) (_modules_path o)).
  set (p1 := set_heap (<[self := o1]> (heap p)) p).
  rewrite (bindM_Return _ _ p tt p1 []) by reflexivity.
  assert (H1 : heap p1 !! self = Some o1) by apply lookup_insert_eq.
  destruct (_setup_paths_spec self p1 o1 H1) as (p2 & E2 & Hh2 & Hc2 & Hm2 & Hd2).
  rewrite (bindM_Return _ _ p1 tt p2 [] E2).
  assert (H2 : heap p2 !! self = Some (mkConn true (_resolve o)
           (Some (api_path (platform_paths p1)))
           (Some (lib_path (platform_paths p1)))
           (Some (modules_path (platform_paths p1)))))
    by (rewrite Hh2; apply lookup_insert_eq).
  destruct (_connect_spec self p2 _ H2) as (t & E3).
  rewrite E3. cbn.
  eexists _, _, t. split; [reflexivity|].
  cbn. rewrite Hh2. subst p1. cbn. rewrite !insert_insert_eq.
  split; [reflexivity|]. cbn. rewrite Hd2. repeat split; assumption.
Qed.

Lemma get_resolve_again p c :
  _connection p = Some c -> get_resolve p = (Return c, p, []).
Proof. intros H. unfold get_resolve, bindM, getM. now rewrite H. Qed.

Lemma acquired_failed (d : DvrScript Resolve) :
  (exists e, import_outcome d = Raise e)
  \/ (exists e, scriptapp_outcome d = Raise e)
  \/ scriptapp_outcome d = Return None ->
  acquired d = None.
Proof.
  unfold acquired. intros [[e H]|[[e H]|H]]; rewrite H; try reflexivity;
    now destruct (import_outcome d).
Qed.

(** The first call, up to what [__init__] does with the new object. *)
Lemma get_resolve_first_run p p3 t :
  cls_instance p = None -> _connection p = None ->
  __init__ (fresh_address (heap p))
    (set_cls_instance (Some (fresh_address (heap p)))
       (set_heap (<[fresh_address (heap p) := blank]> (heap p)) p))
  = (Return tt, p3, t) ->
  get_resolve p
  = (Return (fresh_address (heap p)),
     set__connection (Some (fresh_address (heap p))) p3, t).
Proof.
  intros Hc Hm E3. unfold get_resolve, new_ResolveConnection.
  rewrite (bindM_Return _ _ p p p []) by reflexivity. rewrite Hm.
  rewrite (bindM_Return _ _ p (fresh_address (heap p)) p3 t).
  - cbn. now rewrite app_nil_r.
  - rewrite (bindM_Return _ _ p _ _ [] (__new___first p Hc)).
    rewrite (bindM_Return _ _ _ tt p3 _ E3). unfold retM. cbn.
    now rewrite app_nil_r.
Qed.

Lemma __init___returns self p o :
  heap p !! self = Some o -> returns (fst (fst (__init__ self p))).
Proof.
  intros H. destruct (_initialized o) eqn:Hi.
  - unfold __init__. rewrite (bindM_Return _ _ p o p [])
      by (unfold load; now rewrite H).
    rewrite Hi. now eexists.
  - destruct (__init___first self p o H Hi) as (p' & conn & t & E & _).
    rewrite E. now eexists.
Qed.

Lemma get_resolve_returns p :
  (forall a, cls_instance p = Some a -> is_Some (heap p !! a)) ->
  returns (fst (fst (get_resolve p))).
Proof.
  intros Hwf. destruct (_connection p) as [c|] eqn:Hm.
  - rewrite (get_resolve_again p c Hm). now eexists.
  - destruct (cls_instance p) as [a|] eqn:Hc.
    + destruct (Hwf a eq_refl) as [o Ho].
      destruct (__init___returns a p o Ho) as [[] E].
      unfold get_resolve, new_ResolveConnection.
      rewrite (bindM_Return _ _ p p p []) by reflexivity. rewrite Hm.
      unfold bindM at 1. unfold bindM at 1.
      rewrite (__new___again p a Hc). unfold bindM at 1.
      destruct (__init__ a p) as [[oi pi] ti]. simpl in E. subst oi.
      cbn. now eexists.
    + set (a := fresh_address (heap p)).
      set (pN := set_cls_instance (Some a)
                   (set_heap (<[a := blank]> (heap p)) p)).
      assert (HN : heap pN !! a = Some blank) by apply lookup_insert_eq.
      destruct (__init___first a pN blank HN eq_refl)
        as (p3 & conn & t & E3 & _).
      rewrite (get_resolve_first_run p p3 _ Hc Hm E3). now eexists.
Qed.

(** C8: [get_resolve] returns in every state in which the class instance, if
    any, is a live object.  In a process where nothing has been constructed
    it allocates a new object, runs the connect attempt (the trace starts
    with the import) and stores the object as the class instance and as the
    module global; the object's [_resolve] is what the attempt acquired, so
    when the import raises, [scriptapp] raises or [scriptapp] returns a null
    handle, the object is returned with [is_connected] false.  From then on,
    in any state where the module global still holds it, [get_resolve]
    returns the same object and does nothing else. *)
Theorem get_resolve_singleton p :
  ((forall a, cls_instance p = Some a -> is_Some (heap p !! a)) ->
   returns (fst (fst (get_resolve p))))
  /\ (cls_instance p = None -> _connection p = None ->
      exists c p' conn t,
        get_resolve p = (Return c, p', ev_import_DaVinciResolveScript :: t)
        /\ heap p !! c = None
        /\ heap p' !! c = Some conn
        /\ cls_instance p' = Some c
        /\ _connection p' = Some c
        /\ _resolve conn = acquired (DaVinciResolveScript p)
        /\ ((exists e, import_outcome (DaVinciResolveScript p) = Raise e)
            \/ (exists e, scriptapp_outcome (DaVinciResolveScript p) = Raise e)
            \/ scriptapp_outcome (DaVinciResolveScript p) = Return None ->
            is_connected conn = false)
        /\ (forall q, _connection q = Some c ->
                      get_resolve q = (Return c, q, []))).
Proof.
  split; [apply get_resolve_returns|].
  intros Hc Hm. set (a := fresh_address (heap p)).
  set (pN := set_cls_instance (Some a) (set_heap (<[a := blank]> (heap p)) p)).
  assert (HN : heap pN !! a = Some blank) by apply lookup_insert_eq.
  destruct (__init___first a pN blank HN eq_refl)
    as (p3 & conn & t & E3 & Hh3 & Hi3 & Hr3 & Hc3 & Hm3).
  assert (Hr : _resolve conn = acquired (DaVinciResolveScript p)) by exact Hr3.
  exists a, (set__connection (Some a) p3), conn, t.
  split; [|split; [|split; [|split; [|split; [|split; [|split]]]]]].
  - exact (get_resolve_first_run p p3 _ Hc Hm E3).
  - apply fresh_address_free.
  - cbn. rewrite Hh3. apply lookup_insert_eq.
  - cbn. now rewrite Hc3.
  - reflexivity.
  - exact Hr.
  - intros Hfail. unfold is_connected. rewrite Hr.
    now rewrite (acquired_failed _ Hfail).
  - intros q. apply get_resolve_again.
Qed.

(** C10: [reconnect] returns, and what it returns is [is_connected] of the
    object afterwards.  The object differs from the one before only in
    [_resolve], which is what the new attempt acquired and does not depend
    on the handle held before: when the import raises, [scriptapp] raises or
    [scriptapp] returns a null handle, [_resolve] is [None] and
    [is_connected] is false, whatever the connection was before. *)
Theorem reconnect_reflects_new_attempt self p o :
  heap p !! self = Some o ->
  exists p' conn t,
    reconnect self p
    = (Return (is_connected conn), p', ev_import_DaVinciResolveScript :: t)
    /\ heap p' !! self = Some conn
    /\ p' = set_heap (<[self := conn]> (heap p)) p
    /\ conn = with__resolve o (acquired (DaVinciResolveScript p))
    /\ ((exists e, import_outcome (DaVinciResolveScript p) = Raise e)
        \/ (exists e, scriptapp_outcome (DaVinciResolveScript p) = Raise e)
        \/ scriptapp_outcome (DaVinciResolveScript p) = Return None ->
        _resolve conn = None /\ is_connected conn = false).
Proof.
  intros H. destruct (_connect_spec self p o H) as (t & E).
  eexists _, _, t. split; [|split; [|split; [|split]]].
  - unfold reconnect. rewrite (bindM_Return _ _ p tt _ _ E).
    unfold liftR.
    erewrite (bindM_Return (load self)); [|unfold load; cbn; rewrite lookup_insert_eq; reflexivity].
    cbn. now rewrite app_nil_r.
  - cbn. apply lookup_insert_eq.
  - reflexivity.
  - reflexivity.
  - intros Hfail. unfold is_connected. cbn.
    now rewrite (acquired_failed _ Hfail).
Qed.
End ConnectFacts.

Section PageFacts.
Context {Resolve : Type} {api : ResolveAPI Resolve}.
Implicit Types (p : Process Resolve) (o : ResolveConnection Resolve).

Lemma str_in_In (x : string) (l : list string) : str_in x l = true <-> In x l.
Proof.
  unfold str_in. rewrite existsb_exists. split.
  - intros (y & Hy & E). apply String.eqb_eq in E. now subst.
  - intros H. exists x. split; [exact H | apply String.eqb_refl].
Qed.

Lemma valid_pages_lower (n : string) : In n valid_pages -> lower n = n.
Proof.
  unfold valid_pages. simpl.
  intros [<-|[<-|[<-|[<-|[<-|[<-|[<-|[]]]]]]]]; reflexivity.
Qed.

Lemma str_in_valid_pages (page : string) :
  str_in (lower page) valid_pages = true <-> is_page_name page.
Proof.
  rewrite str_in_In. unfold is_page_name, eq_nocase. split.
  - intros H. exists (lower page). split; [exact H|].
    symmetry. now apply valid_pages_lower.
  - intros (n & Hn & E). rewrite E, (valid_pages_lower _ Hn). exact Hn.
Qed.

(** C6, as the code has it: for a page that is, up to case, one of the seven
    names, and a connected object, [switch_page] forwards the lower-cased
    name to [OpenPage] and returns its boolean; for any other string it
    raises the built-in [ValueError] with the message listing the names,
    and forwards nothing. *)
Theorem switch_page_validates self page p :
  (is_page_name page ->
     forall o r, heap p !! self = Some o -> _resolve o = Some r ->
       switch_page self page p
       = (Return (fst (OpenPage (lower page) r)),
          set_heap (<[self := with__resolve o (Some (snd (OpenPage (lower page) r)))]>
                      (heap p)) p,
          [ev_switch_page page; ev_OpenPage (lower page)]))
  /\ (~ is_page_name page ->
      switch_page self page p
      = (Raise (new_ValueError invalid_page_message), p, [ev_switch_page page])
      /\ exn_class (new_ValueError invalid_page_message) = ValueError
      /\ OpenPage_calls (snd (switch_page self page p)) = []).
Proof.
  split.
  - intros Hv o r H Hr. apply str_in_valid_pages in Hv.
    unfold switch_page. unfold bindM at 1. unfold emitM at 1. rewrite Hv.
    cbn [negb]. unfold liftR, resolve, bindM, load, emitM, retM.
    rewrite H, Hr. cbn.
    destruct (OpenPage (lower page) r) as [ok r'] eqn:E. cbn.
    rewrite (set__resolve_spec _ _ _ _ H). reflexivity.
  - intros Hv.
    assert (E : str_in (lower page) valid_pages = false).
    { destruct (str_in (lower page) valid_pages) eqn:E; [|reflexivity].
      now apply str_in_valid_pages in E. }
    assert (Es : switch_page self page p
                 = (Raise (new_ValueError invalid_page_message), p,
                    [ev_switch_page page])).
    { unfold switch_page, bindM, emitM. rewrite E. reflexivity. }
    rewrite Es. repeat split.
Qed.

Lemma switch_page_calls_switch_page self page p :
  switch_page_calls (snd (switch_page self page p)) = [page].
Proof.
  unfold switch_page. unfold bindM at 1. unfold emitM at 1.
  destruct (negb (str_in (lower page) valid_pages)).
  - reflexivity.
  - unfold liftR, resolve, bindM, load, emitM, retM, raiseR, retR.
    destruct (heap p !! self) as [o|]; [|reflexivity].
    destruct (_resolve o) as [r|]; [|reflexivity].
    cbn. destruct (OpenPage (lower page) r) as [ok r']. 
    unfold set__resolve, bindM, load, store, modifyM.
    destruct (heap p !! self); reflexivity.
Qed.

End PageFacts.

Section WithPage.
Context {Resolve : Type} {api : ResolveAPI Resolve}.
Implicit Types (p : Process Resolve) (o : ResolveConnection Resolve).

Lemma get_current_page_spec conn p o r :
  heap p !! conn = Some o -> _resolve o = Some r ->
  liftR conn get_current_page p = (Return (GetCurrentPage r), p, [ev_GetCurrentPage]).
Proof.
  intros H Hr. unfold liftR, bindM, load, get_current_page, resolve.
  rewrite H, Hr. reflexivity.
Qed.

(** C4: the wrapper records the current page; it calls [switch_page] with
    the target exactly when the recorded page differs from it; it then runs
    the handler (unless that switch raised); and, whether the handler
    returned or raised, it calls [switch_page] with the recorded page
    exactly when that page is non-empty and differs from the target.  The
    handler's outcome is the wrapper's, unless the restoring call itself
    raises. *)
Theorem with_page_switch_and_restore {Args T : Type}
    (page : string) (func : Args -> M Resolve T) (args : Args)
    p conn p0 t0 o r :
  get_resolve p = (Return conn, p0, t0) ->
  heap p0 !! conn = Some o ->
  _resolve o = Some r ->
  let '(o1, p1, t1) :=
    if py_ne (GetCurrentPage r) page then switch_page conn page p0
    else (Return true, p0, []) in
  let '(oh, p2, th) :=
    match o1 with
    | Return _ => func args p1
    | Raise e => (Raise e, p1, [])
    end in
  let '(ob, p3, tb) :=
    if truthy_str (GetCurrentPage r) && py_ne (GetCurrentPage r) page
    then switch_page conn (default "" (GetCurrentPage r)) p2
    else (Return true, p2, []) in
  with_page page func args p
  = (match ob with Return _ => oh | Raise e => Raise e end, p3,
     t0 ++ [ev_GetCurrentPage] ++ t1 ++ th ++ tb)
  /\ switch_page_calls t1
     = (if py_ne (GetCurrentPage r) page then [page] else [])
  /\ switch_page_calls tb
     = (if truthy_str (GetCurrentPage r) && py_ne (GetCurrentPage r) page
        then [default "" (GetCurrentPage r)] else []).
Proof.
  intros Hg H Hr.
  unfold with_page.
  rewrite (bindM_Return _ _ p conn p0 t0 Hg).
  rewrite (bindM_Return _ _ p0 _ p0 _ (get_current_page_spec _ _ _ _ H Hr)).
  unfold try_finally.
  destruct (py_ne (GetCurrentPage r) page) eqn:Hne.
  - pose proof (switch_page_calls_switch_page conn page p0) as Hc1.
    destruct (switch_page conn page p0) as [[o1 p1] t1] eqn:E1.
    rewrite andb_true_r.
    unfold bindM at 1. unfold bindM at 1. rewrite E1.
    destruct o1 as [ok|e].
    + unfold retM. destruct (func args p1) as [[oh p2] th] eqn:Eh.
      destruct (truthy_str (GetCurrentPage r)) eqn:Ht.
      * pose proof (switch_page_calls_switch_page conn
                      (default "" (GetCurrentPage r)) p2) as Hc2.
        unfold bindM at 1.
        destruct (switch_page conn (default "" (GetCurrentPage r)) p2)
          as [[ob p3] tb] eqn:Eb.
        split; [|split; [exact Hc1 | exact Hc2]].
        destruct ob as [ok'|e']; cbn; rewrite ?app_nil_r, <- ?app_assoc; reflexivity.
      * split; [|split; [exact Hc1 | reflexivity]].
        cbn. rewrite ?app_nil_r, <- ?app_assoc. reflexivity.
    + destruct (truthy_str (GetCurrentPage r)) eqn:Ht.
      * pose proof (switch_page_calls_switch_page conn
                      (default "" (GetCurrentPage r)) p1) as Hc2.
        unfold bindM at 1.
        destruct (switch_page conn (default "" (GetCurrentPage r)) p1)
          as [[ob p3] tb] eqn:Eb.
        split; [|split; [exact Hc1 | exact Hc2]].
        destruct ob as [ok'|e']; cbn; rewrite ?app_nil_r, <- ?app_assoc; reflexivity.
      * split; [|split; [exact Hc1 | reflexivity]].
        cbn. rewrite ?app_nil_r, <- ?app_assoc. reflexivity.
  - rewrite andb_false_r.
    unfold bindM at 1. unfold retM at 1.
    destruct (func args p0) as [[oh p2] th] eqn:Eh.
    split; [|split; reflexivity].
    unfold retM. cbn. rewrite ?app_nil_r. reflexivity.
Qed.
End WithPage.

(** ** The theorems above, run on the simulated application *)

Lemma get_resolve_singleton_witness :
  exists c conn p' t,
    get_resolve (sim_fresh sim_not_installed) = (Return c, p', t)
    /\ heap p' !! c = Some conn
    /\ is_connected conn = false
    /\ get_resolve p' = (Return c, p', []).
Proof.
  destruct (proj2 (get_resolve_singleton (sim_fresh sim_not_installed))
              eq_refl eq_refl)
    as (c & p' & conn & t & E & _ & Hh & _ & Hm & _ & Hfail & Hagain).
  exists c, conn, p', (ev_import_DaVinciResolveScript :: t).
  split; [exact E|]. split; [exact Hh|]. split.
  - apply Hfail. left. eexists. reflexivity.
  - apply Hagain, Hm.
Defined.

Lemma reconnect_reflects_new_attempt_witness :
  is_connected (sim_conn (Some sim_full)) = true
  /\ exists p' t,
       reconnect 0 (sim_process sim_full sim_not_installed)
       = (Return false, p', t).
Proof.
  split; [reflexivity|].
  destruct (reconnect_reflects_new_attempt 0
              (sim_process sim_full sim_not_installed)
              (sim_conn (Some sim_full)) eq_refl)
    as (p' & conn & t & E & _ & _ & _ & Hfail).
  exists p', (ev_import_DaVinciResolveScript :: t).
  rewrite E. f_equal. f_equal. f_equal.
  apply Hfail. left. eexists. reflexivity.
Defined.

(** C6 as stated fails: for a string that is no page name the exception is
    the built-in [ValueError], which is not a [ResolveError] and so not the
    [InvalidParameterError] of the taxonomy. *)
Lemma switch_page_invalid_raises_ValueError :
  fst (fst (switch_page 0 "render" (sim_process sim_full (sim_running sim_full))))
  = Raise (mk_exn ValueError invalid_page_message)
  /\ is_ResolveError ValueError = false
  /\ exc_class_eqb ValueError InvalidParameterError = false
  /\ exn_str (new_InvalidParameterError "page" (Some valid_pages))
     = "Invalid value for 'page'. Must be one of: media, cut, edit, fusion, color, fairlight, deliver".
Proof. repeat split; vm_compute; reflexivity. Qed.

Lemma switch_page_validates_witness :
  fst (fst (switch_page 0 "COLOR" (sim_process sim_full (sim_running sim_full))))
  = Return true
  /\ snd (switch_page 0 "COLOR" (sim_process sim_full (sim_running sim_full)))
     = [ev_switch_page "COLOR"; ev_OpenPage "color"]
  /\ switch_page 0 "render" (sim_process sim_full (sim_running sim_full))
     = (Raise (new_ValueError invalid_page_message),
        sim_process sim_full (sim_running sim_full), [ev_switch_page "render"]).
Proof.
  pose proof (switch_page_validates 0 "COLOR"
                (sim_process sim_full (sim_running sim_full))) as [Hv _].
  pose proof (switch_page_validates 0 "render"
                (sim_process sim_full (sim_running sim_full))) as [_ Hi].
  assert (Hc : is_page_name "COLOR").
  { exists "color". split; [|reflexivity]. unfold valid_pages. simpl. tauto. }
  rewrite (Hv Hc (sim_conn (Some sim_full)) sim_full eq_refl eq_refl).
  split; [reflexivity|]. split; [reflexivity|].
  apply Hi. intros (n & Hn & E). unfold valid_pages in Hn. simpl in Hn.
  destruct Hn as [<-|[<-|[<-|[<-|[<-|[<-|[<-|[]]]]]]]]; discriminate E.
Defined.

Lemma with_page_switch_and_restore_witness :
  fst (fst (with_page "color" failing_handler tt
              (sim_process sim_full (sim_running sim_full))))
  = Raise (mk_exn (OtherException "RuntimeError") "boom")
  /\ switch_page_calls
       (snd (with_page "color" failing_handler tt
               (sim_process sim_full (sim_running sim_full))))
     = ["color"; "edit"]
  /\ switch_page_calls
       (snd (with_page "edit" failing_handler tt
               (sim_process sim_full (sim_running sim_full))))
     = [].
Proof.
  pose proof (with_page_switch_and_restore "color" failing_handler tt
                (sim_process sim_full (sim_running sim_full)) 0
                (sim_process sim_full (sim_running sim_full)) []
                (sim_conn (Some sim_full)) sim_full eq_refl eq_refl eq_refl) as H1.
  pose proof (with_page_switch_and_restore "edit" failing_handler tt
                (sim_process sim_full (sim_running sim_full)) 0
                (sim_process sim_full (sim_running sim_full)) []
                (sim_conn (Some sim_full)) sim_full eq_refl eq_refl eq_refl) as H2.
  remember (with_page "color" failing_handler tt _) as w1 eqn:Ew1 in H1 |- *.
  remember (with_page "edit" failing_handler tt _) as w2 eqn:Ew2 in H2 |- *.
  vm_compute in H1. vm_compute in H2.
  destruct H1 as [E1 _]. destruct H2 as [E2 _].
  rewrite E1, E2. repeat split.
Defined.

(** ** Further properties of the lookups and of the injectors *)

Lemma first_clip_named_find (name : string) (clips : list Clip) :
  fst (first_clip_named name clips)
  = Return (find (fun clip => String.eqb (Clip_GetName clip) name) clips).
Proof.
  induction clips as [|clip rest IH]; simpl; [reflexivity|].
  destruct (String.eqb (Clip_GetName clip) name); simpl; [reflexivity|].
  destruct (first_clip_named name rest). exact IH.
Qed.

(** X1: with a media pool at hand, [find_clip_by_name] returns the first clip of
    the pre-order listing with that name, and an absent result, not an
    exception, when no clip of any folder has it. *)
Theorem find_clip_by_name_first_or_absent
    {Resolve : Type} {api : ResolveAPI Resolve}
    (self : ResolveConnection Resolve) (mp : MediaPool) (name : string) :
  fst (media_pool self) = Return mp ->
  fst (find_clip_by_name self name)
  = Return (find (fun clip => String.eqb (Clip_GetName clip) name)
                 (clips_preorder (GetRootFolder mp)))
  /\ ((forall clip, In clip (clips_preorder (GetRootFolder mp)) ->
                    Clip_GetName clip <> name) ->
      fst (find_clip_by_name self name) = Return None).
Proof.
  intros Hmp.
  assert (E : fst (find_clip_by_name self name)
              = Return (find (fun clip => String.eqb (Clip_GetName clip) name)
                             (clips_preorder (GetRootFolder mp)))).
  { unfold find_clip_by_name.
    rewrite (bindR_return _ _ (clips_preorder (GetRootFolder mp))).
    - apply first_clip_named_find.
    - unfold get_all_clips. rewrite (bindR_return _ _ _ Hmp).
      rewrite (bindR_return (emitR ev_GetRootFolder) _ tt eq_refl).
      apply get_all_clips_from_preorder. }
  split; [exact E|]. intros Hall. rewrite E. f_equal.
  destruct (find _ (clips_preorder (GetRootFolder mp))) as [c|] eqn:Ef;
    [|reflexivity].
  destruct (find_some _ _ Ef) as [Hin Hn]. apply String.eqb_eq in Hn.
  now destruct (Hall _ Hin).
Qed.

Lemma find_clip_by_name_first_or_absent_witness :
  fst (find_clip_by_name (sim_conn (Some sim_full)) "c.mov") = Return (Some clip_c)
  /\ fst (find_clip_by_name (sim_conn (Some sim_full)) "X") = Return None.
Proof.
  pose proof (find_clip_by_name_first_or_absent
                (sim_conn (Some sim_full)) (mkMediaPool sim_root)) as H.
  split.
  - exact (proj1 (H "c.mov" eq_refl)).
  - apply (proj2 (H "X" eq_refl)).
    simpl. intros clip [<-|[<-|[<-|[<-|[]]]]]; discriminate.
Defined.

Lemma length_folders_preorder (folder : Folder) :
  length (folders_preorder folder) = total_folders folder.
Proof.
  induction folder as [name clip_list subs IH] using Folder_nested_ind.
  simpl. f_equal. destruct subs as [subs|]; simpl in *; [|reflexivity].
  rewrite length_concat, map_map. now apply list_sum_map_Forall.
Qed.

(** X2: on a tree of N folders [get_all_folders] returns, without raising, the
    N folders in pre-order: every folder before the folders below it, the
    sub-folders in list order, an absent sub-folder list counting as
    empty. *)
Theorem get_all_folders_preorder
    {Resolve : Type} {api : ResolveAPI Resolve}
    (self : ResolveConnection Resolve) (folder : Folder) :
  exists folders,
    fst (get_all_folders self (Some folder)) = Return folders
    /\ length folders = total_folders folder
    /\ hd_error folders = Some folder
    /\ folders
       = folder :: concat (map folders_preorder
                               (default [] (GetSubFolderList folder))).
Proof.
  exists (folders_preorder folder). split; [|split; [|split]].
  - apply get_all_folders_from_preorder.
  - apply length_folders_preorder.
  - now destruct folder.
  - destruct folder as [name clip_list [subs|]]; reflexivity.
Qed.

Section InjectorFacts.
Context {Resolve : Type} {api : ResolveAPI Resolve}.
Implicit Types (p : Process Resolve) (o : ResolveConnection Resolve).

Lemma liftR_spec {A : Type} (f : ResolveConnection Resolve -> R A) conn p o :
  heap p !! conn = Some o ->
  liftR conn f p = (fst (f o), p, snd (f o)).
Proof.
  intros H. unfold liftR, bindM, load. rewrite H.
  now destruct (f o) as [[a|e] t].
Qed.

Lemma bindM_Raise {A B : Type} (m : M Resolve A) (k : A -> M Resolve B)
    p e p1 t1 :
  m p = (Raise e, p1, t1) -> bindM m k p = (Raise e, p1, t1).
Proof. intros H. unfold bindM. now rewrite H. Qed.

Lemma current_project_no_calls o : snd (current_project o) = [].
Proof.
  unfold current_project, project_manager, resolve.
  destruct (_resolve o) as [r|]; simpl; [|reflexivity].
  destruct (GetProjectManager r) as [pm|]; simpl; [|reflexivity].
  now destruct (GetCurrentProject pm).
Qed.

Lemma current_timeline_no_calls o : snd (current_timeline o) = [].
Proof.
  unfold current_timeline. pose proof (current_project_no_calls o) as H.
  destruct (current_project o) as [[project|e] t]; simpl in *; subst t;
    [|reflexivity].
  now destruct (GetCurrentTimeline project).
Qed.

(** X3: the timeline injector checks the layers in order and calls the handler
    only when all are present: a connection that reports disconnected gives
    not-connected before anything deeper is touched; otherwise a failure of
    [current_project] is raised as it is; otherwise a failure of
    [current_timeline]; otherwise the handler runs with the connection, the
    project and the timeline.  In the three failing cases the handler is
    not called and the process is left as [get_resolve] left it. *)
Theorem require_timeline_checks_in_order {Args T : Type}
    (func : Args -> nat -> Project -> Timeline -> M Resolve T) (args : Args)
    p conn p0 t0 o :
  get_resolve p = (Return conn, p0, t0) ->
  heap p0 !! conn = Some o ->
  (is_connected o = false ->
     require_timeline func args p = (Raise (new_NotConnectedError None), p0, t0))
  /\ (forall e, is_connected o = true ->
        fst (current_project o) = Raise e ->
        require_timeline func args p = (Raise e, p0, t0))
  /\ (forall project e, is_connected o = true ->
        fst (current_project o) = Return project ->
        fst (current_timeline o) = Raise e ->
        require_timeline func args p = (Raise e, p0, t0))
  /\ (forall project timeline, is_connected o = true ->
        fst (current_project o) = Return project ->
        fst (current_timeline o) = Return timeline ->
        require_timeline func args p
        = (let '(r, p', t) := func args conn project timeline p0 in
           (r, p', t0 ++ t))).
Proof.
  intros Hg Ho.
  assert (Hc : liftR conn (fun o => retR (is_connected o)) p0
               = (Return (is_connected o), p0, []))
    by (now rewrite (liftR_spec _ _ _ _ Ho)).
  assert (Hp : liftR conn current_project p0 = (fst (current_project o), p0, []))
    by (now rewrite (liftR_spec _ _ _ _ Ho), current_project_no_calls).
  assert (Ht : liftR conn current_timeline p0 = (fst (current_timeline o), p0, []))
    by (now rewrite (liftR_spec _ _ _ _ Ho), current_timeline_no_calls).
  unfold require_timeline.
  rewrite (bindM_Return _ _ p conn p0 t0 Hg).
  rewrite (bindM_Return _ _ p0 _ p0 [] Hc).
  split; [|split; [|split]].
  - intros ->. cbn. now rewrite app_nil_r.
  - intros e -> He. cbn [negb]. rewrite He in Hp.
    rewrite (bindM_Raise _ _ _ _ _ _ Hp). cbn. now rewrite app_nil_r.
  - intros project e -> Hproj He. cbn [negb]. rewrite Hproj in Hp.
    rewrite He in Ht. rewrite (bindM_Return _ _ p0 _ p0 [] Hp).
    rewrite (bindM_Raise _ _ _ _ _ _ Ht). cbn. now rewrite app_nil_r.
  - intros project timeline -> Hproj Htl. cbn [negb]. rewrite Hproj in Hp.
    rewrite Htl in Ht. rewrite (bindM_Return _ _ p0 _ p0 [] Hp).
    rewrite (bindM_Return _ _ p0 _ p0 [] Ht).
    destruct (func args conn project timeline p0) as [[r p'] t]. reflexivity.
Qed.

End InjectorFacts.

Lemma require_timeline_checks_in_order_witness :
  fst (fst (require_timeline (fun (_ : unit) _ _ tl => retM (Timeline_GetName tl)) tt
              (sim_process sim_full (sim_running sim_full))))
  = Return "Timeline 1"
  /\ fst (fst (require_timeline (fun (_ : unit) _ _ tl => retM (Timeline_GetName tl)) tt
                 (sim_process sim_no_project (sim_running sim_no_project))))
     = Raise (new_NoProjectError None).
Proof.
  split.
  - pose proof (require_timeline_checks_in_order
                  (fun (_ : unit) _ _ tl => retM (Timeline_GetName tl)) tt
                  (sim_process sim_full (sim_running sim_full)) 0
                  (sim_process sim_full (sim_running sim_full)) []
                  (sim_conn (Some sim_full)) eq_refl eq_refl)
      as (_ & _ & _ & H).
    now rewrite (H _ sim_timeline eq_refl eq_refl eq_refl).
  - pose proof (require_timeline_checks_in_order
                  (fun (_ : unit) _ _ tl => retM (Timeline_GetName tl)) tt
                  (sim_process sim_no_project (sim_running sim_no_project)) 0
                  (sim_process sim_no_project (sim_running sim_no_project)) []
                  (sim_conn (Some sim_no_project)) eq_refl eq_refl)
      as (_ & H & _).
    now rewrite (H _ eq_refl eq_refl).
Defined.

(** * Further properties: lookups, construction, decorators and tools *)

(** ** [find_timeline_by_name] *)

Section TimelineByName.
Context {Resolve : Type} {api : ResolveAPI Resolve} {papi : ProjectAPI}.

Lemma scan_timelines_None (project : Project) (name : string) (idxs : list Z) :
  scan_timelines project name idxs = None
  <-> forall j t, In j idxs -> GetTimelineByIndex project j = Some t ->
                  Timeline_GetName t <> name.
Proof.
  induction idxs as [|i rest IH]; simpl.
  - split; [intros _ j t [] | reflexivity].
  - destruct (GetTimelineByIndex project i) as [t0|] eqn:E.
    + destruct (String.eqb (Timeline_GetName t0) name) eqn:En.
      * apply String.eqb_eq in En. split; [discriminate|].
        intros H. now destruct (H i t0 (or_introl eq_refl) E).
      * apply String.eqb_neq in En. rewrite IH. split.
        -- intros H j t [<-|Hj] Ht; [congruence | eauto].
        -- intros H j t Hj. apply H. now right.
    + rewrite IH. split.
      * intros H j t [<-|Hj] Ht; [congruence | eauto].
      * intros H j t Hj. apply H. now right.
Qed.

Lemma scan_timelines_Some (project : Project) (name : string) (idxs : list Z)
    (t : Timeline) :
  scan_timelines project name idxs = Some t ->
  exists before i after,
    idxs = before ++ i :: after
    /\ GetTimelineByIndex project i = Some t
    /\ Timeline_GetName t = name
    /\ forall j t', In j before -> GetTimelineByIndex project j = Some t' ->
                    Timeline_GetName t' <> name.
Proof.
  induction idxs as [|i rest IH]; simpl; [discriminate|].
  destruct (GetTimelineByIndex project i) as [t0|] eqn:E.
  - destruct (String.eqb (Timeline_GetName t0) name) eqn:En.
    + intros [= ->]. apply String.eqb_eq in En.
      exists [], i, rest. repeat split; try assumption. intros j t' [].
    + intros H. destruct (IH H) as (before & k & after & -> & Hk & Hn & Hb).
      exists (i :: before), k, after. repeat split; try assumption.
      apply String.eqb_neq in En.
      intros j t' [<-|Hj] Ht; [congruence | eauto].
  - intros H. destruct (IH H) as (before & k & after & -> & Hk & Hn & Hb).
    exists (i :: before), k, after. repeat split; try assumption.
    intros j t' [<-|Hj] Ht; [congruence | eauto].
Qed.

Lemma ascending_split (a n : nat) (before after : list Z) (i : Z) :
  map Z.of_nat (seq a n) = before ++ i :: after ->
  (Z.of_nat a <= i < Z.of_nat (a + n))%Z
  /\ forall j, (Z.of_nat a <= j < i)%Z -> In j before.
Proof.
  revert a before. induction n as [|n IH]; intros a before; simpl.
  - destruct before; discriminate.
  - destruct before as [|b before]; simpl.
    + intros [= <- _]. split; [lia|]. intros j Hj. lia.
    + intros [= <- H]. destruct (IH _ _ H) as [Hi Hb]. split; [lia|].
      intros j Hj. destruct (Z.eq_dec j (Z.of_nat a)) as [->|Hne];
        [now left | right]. apply Hb. lia.
Qed.

(** X4: with a project open, [find_timeline_by_name] returns the timeline
    with the given name that has the smallest index among 1..count (indices
    at which the project hands out no timeline are passed over), and an
    absent result exactly when no timeline at those indices has the name;
    when [current_project] fails, it fails in the same way. *)
Theorem find_timeline_by_name_smallest_index
    (self : ResolveConnection Resolve) (name : string) :
  (forall e, fst (current_project self) = Raise e ->
             fst (find_timeline_by_name self name) = Raise e)
  /\ (forall project, fst (current_project self) = Return project ->
      exists result,
        fst (find_timeline_by_name self name) = Return result
        /\ (forall t, result = Some t ->
              Timeline_GetName t = name
              /\ exists i, (1 <= i <= GetTimelineCount project)%Z
                   /\ GetTimelineByIndex project i = Some t
                   /\ forall j t', (1 <= j < i)%Z ->
                        GetTimelineByIndex project j = Some t' ->
                        Timeline_GetName t' <> name)
        /\ (result = None <->
            forall j t', (1 <= j <= GetTimelineCount project)%Z ->
                         GetTimelineByIndex project j = Some t' ->
                         Timeline_GetName t' <> name)).
Proof.
  split.
  - intros e He. now apply bindR_raise.
  - intros project Hp.
    exists (scan_timelines project name (range 1 (GetTimelineCount project + 1))).
    split; [|split].
    + unfold find_timeline_by_name. now rewrite (bindR_return _ _ _ Hp).
    + intros t Ht. rewrite range_from_1 in Ht.
      destruct (scan_timelines_Some _ _ _ _ Ht)
        as (before & i & after & Hsplit & Hi & Hn & Hb).
      split; [exact Hn|]. exists i.
      destruct (ascending_split _ _ _ _ _ Hsplit) as [Hrange Hin].
      split; [lia|]. split; [exact Hi|].
      intros j t' Hj. apply Hb, Hin. lia.
    + rewrite scan_timelines_None, range_from_1. split.
      * intros H j t' Hj. apply H. apply in_map_iff.
        exists (Z.to_nat j). split; [lia|]. apply in_seq. lia.
      * intros H j t' Hj. apply H. apply in_map_iff in Hj as (k & <- & Hk).
        apply in_seq in Hk. lia.
Qed.

End TimelineByName.

(** ** Construction and path setup *)

Section ConstructionFacts.
Context {Resolve : Type} {api : ResolveAPI Resolve}.
Implicit Types (p : Process Resolve) (o : ResolveConnection Resolve).

Lemma new_ResolveConnection_again p a o :
  cls_instance p = Some a -> heap p !! a = Some o -> _initialized o = true ->
  new_ResolveConnection p = (Return a, p, []).
Proof.
  intros Hc Ho Hi. unfold new_ResolveConnection.
  rewrite (bindM_Return _ _ p a p [] (__new___again p a Hc)).
  unfold __init__.
  rewrite (bindM_Return (bindM (load a) _) _ p tt p []).
  - reflexivity.
  - rewrite (bindM_Return _ _ p o p []) by (unfold load; now rewrite Ho).
    now rewrite Hi.
Qed.

Lemma _connect_imports_once self p o :
  heap p !! self = Some o -> import_attempts (snd (_connect self p)) = 1.
Proof.
  intros H.
  unfold _connect, try_except, _connect_try, set__resolve, bindM,
    getM, emitM, liftOutcome, load, store, modifyM.
  destruct (import_outcome (DaVinciResolveScript p)) as [[]|e1];
    [destruct (scriptapp_outcome (DaVinciResolveScript p)) as [[r|]|e2];
     [destruct (GetProductName r) as [product|e3];
      [destruct (GetVersionString r) as [version|e4]|]| |]|];
    cbn; rewrite ?H; cbn; rewrite ?lookup_insert_eq; cbn;
    try match goal with |- context [is_ImportError ?c] =>
          destruct (is_ImportError c) end;
    cbn; rewrite ?H; cbn; rewrite ?lookup_insert_eq; cbn;
    reflexivity.
Qed.

Lemma __init___first_imports_once self p o :
  heap p !! self = Some o -> _initialized o = false ->
  import_attempts (snd (__init__ self p)) = 1.
Proof.
  intros H Hinit. unfold __init__.
  rewrite (bindM_Return _ _ p o p []) by (unfold load; now rewrite H).
  rewrite Hinit.
  set (o1 := mkConn true (_resolve o) (_api_path o) (_lib_path o) (_modules_path o)).
  set (p1 := set_heap (<[self := o1]> (heap p)) p).
  rewrite (bindM_Return _ _ p tt p1 []) by reflexivity.
  assert (H1 : heap p1 !! self = Some o1) by apply lookup_insert_eq.
  destruct (_setup_paths_spec self p1 o1 H1) as (p2 & E2 & Hh2 & _).
  rewrite (bindM_Return _ _ p1 tt p2 [] E2).
  assert (H2 : heap p2 !! self = Some (mkConn true (_resolve o)
           (Some (api_path (platform_paths p1)))
           (Some (lib_path (platform_paths p1)))
           (Some (modules_path (platform_paths p1)))))
    by (rewrite Hh2; apply lookup_insert_eq).
  pose proof (_connect_imports_once self p2 _ H2) as Hone.
  destruct (_connect self p2) as [[r p3] t]. exact Hone.
Qed.

(** X5: constructing [ResolveConnection()] where no instance exists returns a
    new object and runs exactly one connect attempt: the import is the first
    thing recorded and is run once, and the object holds the handle that
    attempt acquired.  Every further construction returns that same object,
    changes nothing and makes no connect attempt; and a [get_resolve] that
    comes after a direct construction adopts the existing object, again
    without connecting. *)
Theorem ResolveConnection_constructed_once p :
  cls_instance p = None ->
  exists a p' t conn,
    new_ResolveConnection p = (Return a, p', ev_import_DaVinciResolveScript :: t)
    /\ import_attempts (ev_import_DaVinciResolveScript :: t) = 1
    /\ heap p !! a = None
    /\ heap p' !! a = Some conn
    /\ _resolve conn = acquired (DaVinciResolveScript p)
    /\ new_ResolveConnection p' = (Return a, p', [])
    /\ (_connection p = None ->
        get_resolve p' = (Return a, set__connection (Some a) p', [])).
Proof.
  intros Hc. set (a := fresh_address (heap p)).
  set (pN := set_cls_instance (Some a) (set_heap (<[a := blank]> (heap p)) p)).
  assert (HN : heap pN !! a = Some blank) by apply lookup_insert_eq.
  destruct (__init___first a pN blank HN eq_refl)
    as (p3 & conn & t & E3 & Hh3 & Hi3 & Hr3 & Hc3 & Hm3).
  pose proof (__init___first_imports_once a pN blank HN eq_refl) as Hone.
  rewrite E3 in Hone. cbn [snd] in Hone.
  assert (Hinst : cls_instance p3 = Some a) by (now rewrite Hc3).
  assert (Hobj : heap p3 !! a = Some conn)
    by (rewrite Hh3; apply lookup_insert_eq).
  assert (Hagain : new_ResolveConnection p3 = (Return a, p3, []))
    by exact (new_ResolveConnection_again p3 a conn Hinst Hobj Hi3).
  exists a, p3, t, conn. split; [|split; [|split; [|split; [|split; [|split]]]]].
  - unfold new_ResolveConnection.
    rewrite (bindM_Return _ _ p a pN [] (__new___first p Hc)).
    rewrite (bindM_Return _ _ pN tt p3 _ E3). unfold retM. cbn.
    now rewrite app_nil_r.
  - exact Hone.
  - apply fresh_address_free.
  - exact Hobj.
  - exact Hr3.
  - exact Hagain.
  - intros Hm. unfold get_resolve.
    rewrite (bindM_Return _ _ p3 p3 p3 []) by reflexivity.
    assert (Hm' : _connection p3 = None) by (now rewrite Hm3).
    rewrite Hm'. rewrite (bindM_Return _ _ p3 a p3 [] Hagain). reflexivity.
Qed.

(** X6: [_setup_paths] never raises on a live object.  Afterwards the two
    environment variables hold the API and library paths, every other
    variable is as before, the three paths are stored on the object and its
    handle is untouched; the modules path is in [sys.path], put in front
    when it was missing and [sys.path] left alone when it was there, so
    running the setup a second time changes neither. *)
Theorem _setup_paths_effects self p o :
  heap p !! self = Some o ->
  exists p',
    _setup_paths self p = (Return tt, p', [])
    /\ os_environ p' !! "RESOLVE_SCRIPT_API" = Some (api_path (platform_paths p))
    /\ os_environ p' !! "RESOLVE_SCRIPT_LIB" = Some (lib_path (platform_paths p))
    /\ (forall k, k <> "RESOLVE_SCRIPT_API" -> k <> "RESOLVE_SCRIPT_LIB" ->
                  os_environ p' !! k = os_environ p !! k)
    /\ heap p' !! self
       = Some (@mkConn Resolve (_initialized o) (_resolve o)
                      (Some (api_path (platform_paths p)))
                      (Some (lib_path (platform_paths p)))
                      (Some (modules_path (platform_paths p))))
    /\ In (modules_path (platform_paths p)) (sys_path p')
    /\ (In (modules_path (platform_paths p)) (sys_path p) ->
        sys_path p' = sys_path p)
    /\ (~ In (modules_path (platform_paths p)) (sys_path p) ->
        sys_path p' = modules_path (platform_paths p) :: sys_path p)
    /\ exists p'',
         _setup_paths self p' = (Return tt, p'', [])
         /\ sys_path p'' = sys_path p'
         /\ os_environ p'' = os_environ p'
         /\ heap p'' !! self = heap p' !! self.
Proof.
  intros H.
  assert (Hrun : forall q oq, heap q !! self = Some oq ->
            _setup_paths self q
            = (Return tt,
               (if str_in (modules_path (platform_paths q)) (sys_path q)
                then fun x => x
                else set_sys_path (modules_path (platform_paths q) :: sys_path q))
                 (set_os_environ
                    (<["RESOLVE_SCRIPT_LIB" := lib_path (platform_paths q)]>
                       (<["RESOLVE_SCRIPT_API" := api_path (platform_paths q)]>
                          (os_environ q)))
                    (set_heap
                       (<[self := @mkConn Resolve (_initialized oq) (_resolve oq)
                                    (Some (api_path (platform_paths q)))
                                    (Some (lib_path (platform_paths q)))
                                    (Some (modules_path (platform_paths q)))]>
                          (heap q)) q)),
               [])).
  { intros q oq Hq.
    unfold _setup_paths, bindM, getM, load, store, modifyM, retM.
    cbn. rewrite Hq. cbn.
    change (existsb (String.eqb (modules_path (platform_paths q))) (sys_path q))
      with (str_in (modules_path (platform_paths q)) (sys_path q)).
    now destruct (str_in (modules_path (platform_paths q)) (sys_path q)). }
  set (o' := @mkConn Resolve (_initialized o) (_resolve o)
                (Some (api_path (platform_paths p)))
                (Some (lib_path (platform_paths p)))
                (Some (modules_path (platform_paths p)))).
  set (env' := <["RESOLVE_SCRIPT_LIB" := lib_path (platform_paths p)]>
                 (<["RESOLVE_SCRIPT_API" := api_path (platform_paths p)]>
                    (os_environ p))).
  set (base := set_os_environ env' (set_heap (<[self := o']> (heap p)) p)).
  assert (Hbase : heap base !! self = Some o') by apply lookup_insert_eq.
  assert (Henv : forall (e : gmap string string),
            <["RESOLVE_SCRIPT_LIB" := lib_path (platform_paths p)]>
              (<["RESOLVE_SCRIPT_API" := api_path (platform_paths p)]>
                 (<["RESOLVE_SCRIPT_LIB" := lib_path (platform_paths p)]>
                    (<["RESOLVE_SCRIPT_API" := api_path (platform_paths p)]> e)))
            = <["RESOLVE_SCRIPT_LIB" := lib_path (platform_paths p)]>
                (<["RESOLVE_SCRIPT_API" := api_path (platform_paths p)]> e)).
  { intros e. apply map_eq. intros k.
    destruct (decide (k = "RESOLVE_SCRIPT_LIB")) as [->|H2];
      [now rewrite !lookup_insert_eq|].
    destruct (decide (k = "RESOLVE_SCRIPT_API")) as [->|H1].
    - rewrite !(lookup_insert_ne _ "RESOLVE_SCRIPT_LIB") by discriminate.
      now rewrite !lookup_insert_eq.
    - now repeat rewrite lookup_insert_ne by congruence. }
  assert (Hin : str_in (modules_path (platform_paths p)) (sys_path p) = true
                <-> In (modules_path (platform_paths p)) (sys_path p))
    by apply str_in_In.
  assert (Hfacts : forall q,
            os_environ q = env' -> heap q !! self = Some o' ->
            os_environ q !! "RESOLVE_SCRIPT_API" = Some (api_path (platform_paths p))
            /\ os_environ q !! "RESOLVE_SCRIPT_LIB"
               = Some (lib_path (platform_paths p))
            /\ (forall k, k <> "RESOLVE_SCRIPT_API" -> k <> "RESOLVE_SCRIPT_LIB" ->
                          os_environ q !! k = os_environ p !! k)
            /\ heap q !! self = Some o').
  { intros q -> Hq. subst env'.
    split; [rewrite lookup_insert_ne by discriminate; apply lookup_insert_eq|].
    split; [apply lookup_insert_eq|].
    split; [intros k H1 H2; now rewrite !lookup_insert_ne by congruence|].
    exact Hq. }
  destruct (str_in (modules_path (platform_paths p)) (sys_path p)) eqn:E.
  - exists base.
    destruct (Hfacts base eq_refl Hbase) as (F1 & F2 & F3 & F4).
    split; [rewrite (Hrun p o H), E; reflexivity|].
    split; [exact F1|]. split; [exact F2|]. split; [exact F3|].
    split; [exact F4|].
    split; [now apply Hin|]. split; [reflexivity|].
    split; [intros Hn; destruct Hn; now apply Hin|].
    exists base. rewrite (Hrun base o' Hbase).
    change (platform_paths base) with (platform_paths p).
    change (sys_path base) with (sys_path p). rewrite E.
    split; [|repeat split]. f_equal. f_equal.
    unfold base, set_os_environ, set_heap. cbn. f_equal.
    + now rewrite insert_insert_eq.
    + apply Henv.
  - set (p1 := set_sys_path (modules_path (platform_paths p) :: sys_path p) base).
    exists p1.
    assert (Hp1 : heap p1 !! self = Some o') by exact Hbase.
    destruct (Hfacts p1 eq_refl Hp1) as (F1 & F2 & F3 & F4).
    split; [rewrite (Hrun p o H), E; reflexivity|].
    split; [exact F1|]. split; [exact F2|]. split; [exact F3|].
    split; [exact F4|].
    split; [now left|].
    split; [intros Hc; apply Hin in Hc; discriminate|].
    split; [reflexivity|].
    exists p1. rewrite (Hrun p1 o' Hp1).
    change (platform_paths p1) with (platform_paths p).
    change (sys_path p1) with (modules_path (platform_paths p) :: sys_path p).
    assert (E1 : str_in (modules_path (platform_paths p))
                   (modules_path (platform_paths p) :: sys_path p) = true)
      by (apply str_in_In; now left).
    rewrite E1.
    split; [|repeat split]. f_equal. f_equal.
    unfold p1, base, set_sys_path, set_os_environ, set_heap. cbn. f_equal.
    + now rewrite insert_insert_eq.
    + apply Henv.
Qed.

End ConstructionFacts.

Lemma ResolveConnection_constructed_once_witness :
  exists p',
    fst (new_ResolveConnection (sim_fresh (sim_running sim_full)))
    = (Return 0, p')
    /\ import_attempts
         (snd (new_ResolveConnection (sim_fresh (sim_running sim_full)))) = 1
    /\ new_ResolveConnection p' = (Return 0, p', [])
    /\ get_resolve p' = (Return 0, set__connection (Some 0) p', []).
Proof.
  destruct (ResolveConnection_constructed_once
              (sim_fresh (sim_running sim_full)) eq_refl)
    as (a & p' & t & conn & Hrun & Hone & _ & _ & _ & Hagain & Hget).
  assert (Ea : a = 0).
  { assert (E : fst (fst (new_ResolveConnection
                            (sim_fresh (sim_running sim_full)))) = Return a)
      by now rewrite Hrun.
    vm_compute in E. now injection E. }
  subst a. exists p'. rewrite Hrun. split; [reflexivity|].
  split; [exact Hone|].
  split; [exact Hagain | exact (Hget eq_refl)].
Defined.

Lemma _setup_paths_effects_witness :
  sys_path (snd (fst (_setup_paths 0 (sim_process sim_full sim_not_installed))))
  = ["/opt/resolve/Developer/Scripting/Modules"]
  /\ os_environ (snd (fst (_setup_paths 0 (sim_process sim_full sim_not_installed))))
       !! "RESOLVE_SCRIPT_LIB"
     = Some "/opt/resolve/libs/Fusion/fusionscript.so".
Proof.
  destruct (_setup_paths_effects 0 (sim_process sim_full sim_not_installed)
              (sim_conn (Some sim_full)) eq_refl)
    as (p' & Hrun & _ & Hlib & _ & _ & _ & _ & Hfront & _).
  rewrite Hrun. cbn [fst snd]. split; [|exact Hlib].
  apply Hfront. intros [].
Defined.

(** ** [validate_params] *)

Section ValidateParamsFacts.
Context {Resolve : Type} {api : ResolveAPI Resolve} {V : Type} (show : V -> string).

Lemma dict_of_acc_absent (params : list string) (args : list (option V))
    (m : gmap string (option V)) (n : string) :
  ~ In n params ->
  foldl (fun m kv => <[kv.1 := kv.2]> m) m (zip params args) !! n = m !! n.
Proof.
  revert args m. induction params as [|x ps IH]; intros args m Hn;
    [reflexivity|].
  destruct args as [|a args]; [reflexivity|]. simpl.
  rewrite IH by (intros H; apply Hn; now right).
  apply lookup_insert_ne. intros ->. apply Hn. now left.
Qed.

Lemma dict_of_acc_bound (params : list string) (args : list (option V))
    (m : gmap string (option V)) (n : string) (i : nat) :
  List.NoDup params -> params !! i = Some n ->
  foldl (fun m kv => <[kv.1 := kv.2]> m) m (zip params args) !! n
  = match args !! i with Some a => Some a | None => m !! n end.
Proof.
  revert args m i. induction params as [|x ps IH]; intros args m i Hnd Hi;
    [destruct i; discriminate|].
  inversion Hnd as [|? ? Hx Hps]; subst.
  destruct args as [|a args]; [now destruct i|]. simpl.
  destruct i as [|i]; simpl in *.
  - injection Hi as ->. rewrite dict_of_acc_absent by exact Hx.
    apply lookup_insert_eq.
  - rewrite (IH args _ i Hps Hi).
    destruct (args !! i); [reflexivity|].
    apply lookup_insert_ne. intros ->. apply Hx.
    apply list_elem_of_In. eapply list_elem_of_lookup_2. exact Hi.
Qed.

Lemma run_validators_accept
    (validators : list (string * (V -> Outcome bool)))
    (full : gmap string (option V)) :
  (forall name validator v, In (name, validator) validators ->
     full !! name = Some (Some v) -> validator v = Return true) ->
  run_validators show validators full = Return tt.
Proof.
  induction validators as [|[name validator] rest IH]; intros H;
    [reflexivity|]. simpl.
  assert (IH' : run_validators show rest full = Return tt).
  { apply IH. intros n f v Hin. apply H. now right. }
  destruct (full !! name) as [[v|]|] eqn:E; try exact IH'.
  now rewrite (H name validator v (or_introl eq_refl) E).
Qed.

Lemma run_validators_reject
    (before after : list (string * (V -> Outcome bool)))
    (name : string) (validator : V -> Outcome bool) (v : V)
    (full : gmap string (option V)) :
  (forall n f v', In (n, f) before ->
     full !! n = Some (Some v') -> f v' = Return true) ->
  full !! name = Some (Some v) -> validator v = Return false ->
  run_validators show (before ++ (name, validator) :: after) full
  = Raise (new_ValueError
             ("Invalid value for parameter '" +:+ name +:+ "': " +:+ show v)).
Proof.
  induction before as [|[n f] before IH]; intros Hb Hv Hrej; simpl.
  - now rewrite Hv, Hrej.
  - assert (IH' := IH (fun n' f' v' Hin => Hb n' f' v' (or_intror Hin)) Hv Hrej).
    destruct (full !! n) as [[v'|]|] eqn:E; try exact IH'.
    now rewrite (Hb n f v' (or_introl eq_refl) E).
Qed.

(** X7: [validate_params] binds the positional arguments to the parameter
    names of the signature by position (surplus arguments bind to nothing), a
    keyword argument taking precedence over the position.  A validator runs
    only for a name that is bound to a value other than [None]: a parameter
    the caller left out is not validated.  When every validator that runs
    accepts, the wrapped function is called with the arguments unchanged;
    otherwise the first rejecting validator, in the order the validators were
    given, raises [ValueError] naming its parameter and the value, and the
    function is not called. *)
Theorem validate_params_binding_and_order {T : Type}
    (validators : list (string * (V -> Outcome bool)))
    (params : list string)
    (func : list (option V) -> gmap string (option V) -> M Resolve T)
    (args : list (option V)) (kwargs : gmap string (option V))
    (p : Process Resolve) :
  List.NoDup params ->
  (forall n a, kwargs !! n = Some a ->
               full_kwargs params args kwargs !! n = Some a)
  /\ (forall n i, kwargs !! n = None -> params !! i = Some n ->
                  full_kwargs params args kwargs !! n = args !! i)
  /\ (forall n, kwargs !! n = None -> ~ In n params ->
                full_kwargs params args kwargs !! n = None)
  /\ ((forall name validator v, In (name, validator) validators ->
         full_kwargs params args kwargs !! name = Some (Some v) ->
         validator v = Return true) ->
      validate_params show validators params func args kwargs p
      = func args kwargs p)
  /\ (forall before name validator after v,
        validators = before ++ (name, validator) :: after ->
        (forall n f v', In (n, f) before ->
           full_kwargs params args kwargs !! n = Some (Some v') ->
           f v' = Return true) ->
        full_kwargs params args kwargs !! name = Some (Some v) ->
        validator v = Return false ->
        validate_params show validators params func args kwargs p
        = (Raise (new_ValueError
                    ("Invalid value for parameter '" +:+ name +:+ "': "
                     +:+ show v)), p, [])).
Proof.
  intros Hnd.
  split; [|split; [|split; [|split]]].
  - intros n a Hk. unfold full_kwargs. now apply lookup_union_Some_l.
  - intros n i Hk Hi. unfold full_kwargs, dict_of.
    rewrite (lookup_union_r _ _ _ Hk).
    rewrite (dict_of_acc_bound params args ∅ n i Hnd Hi).
    destruct (args !! i); [reflexivity | apply lookup_empty].
  - intros n Hk Hn. unfold full_kwargs, dict_of.
    rewrite (lookup_union_r _ _ _ Hk).
    rewrite dict_of_acc_absent by exact Hn. apply lookup_empty.
  - intros Hok. unfold validate_params, bindM, liftOutcome.
    rewrite (run_validators_accept _ _ Hok).
    now destruct (func args kwargs p) as [[o p'] t].
  - intros before name validator after v -> Hb Hv Hrej.
    unfold validate_params, bindM, liftOutcome.
    now rewrite (run_validators_reject _ _ _ _ _ _ Hb Hv Hrej).
Qed.

End ValidateParamsFacts.

Lemma validate_params_binding_and_order_witness :
  validate_params str_nat sim_validators ["frame"; "track"; "note"]
    (fun _ _ => retM "marker added") [Some 250] {["track" := Some 0]}
    (sim_process sim_full (sim_running sim_full))
  = (Raise (new_ValueError "Invalid value for parameter 'frame': 250"),
     sim_process sim_full (sim_running sim_full), [])
  /\ validate_params str_nat sim_validators ["frame"; "track"; "note"]
       (fun _ _ => retM "marker added") [Some 25; Some 0; None]
       {["track" := Some 2]}
       (sim_process sim_full (sim_running sim_full))
     = (Return "marker added", sim_process sim_full (sim_running sim_full), []).
Proof.
  assert (Hnd : List.NoDup ["frame"; "track"; "note"]).
  { repeat constructor; simpl; intuition discriminate. }
  split.
  - pose proof (validate_params_binding_and_order str_nat sim_validators
                  ["frame"; "track"; "note"]
                  (fun _ _ => retM (Resolve := SimApp) "marker added")
                  [Some 250] {["track" := Some 0]}
                  (sim_process sim_full (sim_running sim_full)) Hnd)
      as (_ & _ & _ & _ & H).
    apply (H [] "frame" (fun frame => Return (frame <? 100))
             [("track", fun track => Return (1 <=? track))] 250 eq_refl).
    + intros n f v' [].
    + reflexivity.
    + reflexivity.
  - pose proof (validate_params_binding_and_order str_nat sim_validators
                  ["frame"; "track"; "note"]
                  (fun _ _ => retM (Resolve := SimApp) "marker added")
                  [Some 25; Some 0; None] {["track" := Some 2]}
                  (sim_process sim_full (sim_running sim_full)) Hnd)
      as (_ & _ & _ & H & _).
    rewrite H; [reflexivity|].
    intros name validator v [E|[E|[]]] Hv; injection E as <- <-;
      vm_compute in Hv; injection Hv as <-; reflexivity.
Defined.

(** ** The injectors and the endpoints built from them *)

Section EndpointFacts.
Context {Resolve : Type} {api : ResolveAPI Resolve}.
Implicit Types (p : Process Resolve) (o : ResolveConnection Resolve).

Lemma connected_check conn p o :
  heap p !! conn = Some o ->
  liftR conn (fun o => retR (is_connected o)) p = (Return (is_connected o), p, []).
Proof. intros H. now rewrite (liftR_spec _ _ _ _ H). Qed.

Lemma current_project_connected o project :
  fst (current_project o) = Return project -> is_connected o = true.
Proof.
  unfold is_connected, current_project, project_manager, resolve.
  now destruct (_resolve o).
Qed.

Lemma liftR_current_project conn p o :
  heap p !! conn = Some o ->
  liftR conn current_project p = (fst (current_project o), p, []).
Proof.
  intros H. now rewrite (liftR_spec _ _ _ _ H), current_project_no_calls.
Qed.

Lemma liftR_current_timeline conn p o :
  heap p !! conn = Some o ->
  liftR conn current_timeline p = (fst (current_timeline o), p, []).
Proof.
  intros H. now rewrite (liftR_spec _ _ _ _ H), current_timeline_no_calls.
Qed.

Lemma liftR_media_pool conn p o :
  heap p !! conn = Some o ->
  liftR conn media_pool p = (fst (media_pool o), p, []).
Proof.
  intros H. now rewrite (liftR_spec _ _ _ _ H), accessors_make_no_calls.
Qed.

Lemma handle_resolve_errors_Return {Args T : Type} (name : string)
    (func : Args -> M Resolve T) (args : Args) p v p' t :
  func args p = (Return v, p', t) ->
  handle_resolve_errors name func args p = (Return (inr v), p', t).
Proof.
  intros H. unfold handle_resolve_errors, try_except, bindM, retM.
  rewrite H. now rewrite app_nil_r.
Qed.

Lemma handle_resolve_errors_Raise {Args T : Type} (name : string)
    (func : Args -> M Resolve T) (args : Args) p e p' t :
  func args p = (Raise e, p', t) ->
  exists line,
    handle_resolve_errors name func args p
    = (Return (inl ("Error: " +:+ exn_str e)), p', t ++ [ev_log_error line]).
Proof.
  intros H. unfold handle_resolve_errors, try_except, bindM, retM, emitM.
  rewrite H. destruct (is_ResolveError (exn_class e)); now eexists.
Qed.

Lemma require_resolve_run {Args T : Type} (func : Args -> nat -> M Resolve T)
    (args : Args) p conn p0 t0 o :
  get_resolve p = (Return conn, p0, t0) -> heap p0 !! conn = Some o ->
  require_resolve func args p
  = (if is_connected o
     then let '(r, p', t) := func args conn p0 in (r, p', t0 ++ t)
     else (Raise (new_NotConnectedError None), p0, t0)).
Proof.
  intros Hg Ho. unfold require_resolve.
  rewrite (bindM_Return _ _ p conn p0 t0 Hg).
  rewrite (bindM_Return _ _ p0 _ p0 [] (connected_check _ _ _ Ho)).
  destruct (is_connected o); cbn.
  - now destruct (func args conn p0) as [[r p'] t].
  - now rewrite app_nil_r.
Qed.

Lemma require_project_run {Args T : Type}
    (func : Args -> nat -> Project -> M Resolve T) (args : Args)
    p conn p0 t0 o :
  get_resolve p = (Return conn, p0, t0) -> heap p0 !! conn = Some o ->
  require_project func args p
  = (if is_connected o
     then match fst (current_project o) with
          | Return project =>
              let '(r, p', t) := func args conn project p0 in (r, p', t0 ++ t)
          | Raise e => (Raise e, p0, t0)
          end
     else (Raise (new_NotConnectedError None), p0, t0)).
Proof.
  intros Hg Ho. unfold require_project.
  rewrite (bindM_Return _ _ p conn p0 t0 Hg).
  rewrite (bindM_Return _ _ p0 _ p0 [] (connected_check _ _ _ Ho)).
  destruct (is_connected o); cbn [negb]; [|cbn; now rewrite app_nil_r].
  pose proof (liftR_current_project _ _ _ Ho) as Hp.
  destruct (fst (current_project o)) as [project|e].
  - rewrite (bindM_Return _ _ p0 _ p0 [] Hp).
    now destruct (func args conn project p0) as [[r p'] t].
  - rewrite (bindM_Raise _ _ _ _ _ _ Hp). cbn. now rewrite app_nil_r.
Qed.

Lemma require_timeline_run {Args T : Type}
    (func : Args -> nat -> Project -> Timeline -> M Resolve T) (args : Args)
    p conn p0 t0 o :
  get_resolve p = (Return conn, p0, t0) -> heap p0 !! conn = Some o ->
  require_timeline func args p
  = (if is_connected o
     then match fst (current_project o), fst (current_timeline o) with
          | Return project, Return timeline =>
              let '(r, p', t) := func args conn project timeline p0 in
              (r, p', t0 ++ t)
          | Return _, Raise e => (Raise e, p0, t0)
          | Raise e, _ => (Raise e, p0, t0)
          end
     else (Raise (new_NotConnectedError None), p0, t0)).
Proof.
  intros Hg Ho. unfold require_timeline.
  rewrite (bindM_Return _ _ p conn p0 t0 Hg).
  rewrite (bindM_Return _ _ p0 _ p0 [] (connected_check _ _ _ Ho)).
  destruct (is_connected o); cbn [negb]; [|cbn; now rewrite app_nil_r].
  pose proof (liftR_current_project _ _ _ Ho) as Hp.
  pose proof (liftR_current_timeline _ _ _ Ho) as Ht.
  destruct (fst (current_project o)) as [project|e].
  - rewrite (bindM_Return _ _ p0 _ p0 [] Hp).
    destruct (fst (current_timeline o)) as [timeline|e].
    + rewrite (bindM_Return _ _ p0 _ p0 [] Ht).
      now destruct (func args conn project timeline p0) as [[r p'] t].
    + rewrite (bindM_Raise _ _ _ _ _ _ Ht). cbn. now rewrite app_nil_r.
  - rewrite (bindM_Raise _ _ _ _ _ _ Hp). cbn. now rewrite app_nil_r.
Qed.

Lemma require_media_pool_run {Args T : Type}
    (func : Args -> nat -> Project -> MediaPool -> M Resolve T) (args : Args)
    p conn p0 t0 o :
  get_resolve p = (Return conn, p0, t0) -> heap p0 !! conn = Some o ->
  require_media_pool func args p
  = (if is_connected o
     then match fst (current_project o), fst (media_pool o) with
          | Return project, Return mp =>
              let '(r, p', t) := func args conn project mp p0 in
              (r, p', t0 ++ t)
          | Return _, Raise e => (Raise e, p0, t0)
          | Raise e, _ => (Raise e, p0, t0)
          end
     else (Raise (new_NotConnectedError None), p0, t0)).
Proof.
  intros Hg Ho. unfold require_media_pool.
  rewrite (bindM_Return _ _ p conn p0 t0 Hg).
  rewrite (bindM_Return _ _ p0 _ p0 [] (connected_check _ _ _ Ho)).
  destruct (is_connected o); cbn [negb]; [|cbn; now rewrite app_nil_r].
  pose proof (liftR_current_project _ _ _ Ho) as Hp.
  pose proof (liftR_media_pool _ _ _ Ho) as Ht.
  destruct (fst (current_project o)) as [project|e].
  - rewrite (bindM_Return _ _ p0 _ p0 [] Hp).
    destruct (fst (media_pool o)) as [mp|e].
    + rewrite (bindM_Return _ _ p0 _ p0 [] Ht).
      now destruct (func args conn project mp p0) as [[r p'] t].
    + rewrite (bindM_Raise _ _ _ _ _ _ Ht). cbn. now rewrite app_nil_r.
  - rewrite (bindM_Raise _ _ _ _ _ _ Hp). cbn. now rewrite app_nil_r.
Qed.

(** X8: whichever injector wraps a handler, a connection that reports
    disconnected makes the call raise not-connected: the handler is not
    called, no deeper layer is looked at, and the process stays as
    [get_resolve] left it. *)
Theorem injectors_check_connection_first {Args T : Type}
    (f1 : Args -> nat -> M Resolve T)
    (f2 : Args -> nat -> Project -> M Resolve T)
    (f3 : Args -> nat -> Project -> Timeline -> M Resolve T)
    (f4 : Args -> nat -> Project -> MediaPool -> M Resolve T)
    (args : Args) p conn p0 t0 o :
  get_resolve p = (Return conn, p0, t0) ->
  heap p0 !! conn = Some o ->
  is_connected o = false ->
  require_resolve f1 args p = (Raise (new_NotConnectedError None), p0, t0)
  /\ require_project f2 args p = (Raise (new_NotConnectedError None), p0, t0)
  /\ require_timeline f3 args p = (Raise (new_NotConnectedError None), p0, t0)
  /\ require_media_pool f4 args p = (Raise (new_NotConnectedError None), p0, t0).
Proof.
  intros Hg Ho Hc.
  rewrite (require_resolve_run _ _ _ _ _ _ _ Hg Ho),
          (require_project_run _ _ _ _ _ _ _ Hg Ho),
          (require_timeline_run _ _ _ _ _ _ _ Hg Ho),
          (require_media_pool_run _ _ _ _ _ _ _ Hg Ho), Hc.
  repeat split.
Qed.

(** X9: an endpoint built as [handle_resolve_errors] over
    [require_media_pool] answers with a string for each missing layer and
    does not call its handler then: "Error: Not connected to DaVinci
    Resolve" without a handle, "Error: Failed to get Project Manager"
    without a project manager, "Error: No project currently open" without a
    project and "Error: Failed to get Media Pool" without a media pool.
    With all layers present it is the handler, wrapped, run on the
    connection, the project and the media pool. *)
Theorem media_pool_endpoint_answers {Args T : Type} (name : string)
    (func : Args -> nat -> Project -> MediaPool -> M Resolve T) (args : Args)
    p conn p0 t0 o :
  get_resolve p = (Return conn, p0, t0) ->
  heap p0 !! conn = Some o ->
  (_resolve o = None ->
     exists line,
       handle_resolve_errors name (require_media_pool func) args p
       = (Return (inl "Error: Not connected to DaVinci Resolve"), p0,
          t0 ++ [ev_log_error line]))
  /\ (forall r, _resolve o = Some r ->
      (GetProjectManager r = None ->
         exists line,
           handle_resolve_errors name (require_media_pool func) args p
           = (Return (inl "Error: Failed to get Project Manager"), p0,
              t0 ++ [ev_log_error line]))
      /\ forall pm, GetProjectManager r = Some pm ->
         (GetCurrentProject pm = None ->
            exists line,
              handle_resolve_errors name (require_media_pool func) args p
              = (Return (inl "Error: No project currently open"), p0,
                 t0 ++ [ev_log_error line]))
         /\ forall project, GetCurrentProject pm = Some project ->
            (GetMediaPool project = None ->
               exists line,
                 handle_resolve_errors name (require_media_pool func) args p
                 = (Return (inl "Error: Failed to get Media Pool"), p0,
                    t0 ++ [ev_log_error line]))
            /\ forall mp, GetMediaPool project = Some mp ->
               handle_resolve_errors name (require_media_pool func) args p
               = (let '(r, p', t) :=
                    handle_resolve_errors name
                      (fun a => func a conn project mp) args p0 in
                  (r, p', t0 ++ t))).
Proof.
  intros Hg Ho.
  pose proof (require_media_pool_run func args _ _ _ _ _ Hg Ho) as Hrun.
  unfold is_connected, media_pool, current_project, project_manager, resolve
    in Hrun.
  split.
  - intros Hr. rewrite Hr in Hrun.
    exact (handle_resolve_errors_Raise name _ _ _ _ _ _ Hrun).
  - intros r Hr. rewrite Hr in Hrun. cbn in Hrun. split.
    + intros Hpm. rewrite Hpm in Hrun.
      exact (handle_resolve_errors_Raise name _ _ _ _ _ _ Hrun).
    + intros pm Hpm. rewrite Hpm in Hrun. cbn in Hrun. split.
      * intros Hp. rewrite Hp in Hrun.
        exact (handle_resolve_errors_Raise name _ _ _ _ _ _ Hrun).
      * intros project Hp. rewrite Hp in Hrun. cbn in Hrun. split.
        -- intros Hmp. rewrite Hmp in Hrun.
           exact (handle_resolve_errors_Raise name _ _ _ _ _ _ Hrun).
        -- intros mp Hmp. rewrite Hmp in Hrun. cbn in Hrun.
           unfold handle_resolve_errors, try_except, bindM, retM, emitM.
           rewrite Hrun.
           destruct (func args conn project mp p0) as [[[v|e] p'] t];
             [cbn; now rewrite !app_nil_r|].
           destruct (is_ResolveError (exn_class e)); cbn;
             now rewrite !app_assoc.
Qed.

Lemma wrapped_after_prefix {Args T : Type} (name : string)
    (f g : Args -> M Resolve T) (args : Args) p p0 t0 :
  f args p = (let '(r, p', t) := g args p0 in (r, p', t0 ++ t)) ->
  handle_resolve_errors name f args p
  = (let '(r, p', t) := handle_resolve_errors name g args p0 in
     (r, p', t0 ++ t)).
Proof.
  intros H. unfold handle_resolve_errors, try_except, bindM, retM, emitM.
  rewrite H. destruct (g args p0) as [[[v|e] p'] t];
    [cbn; now rewrite !app_nil_r|].
  destruct (is_ResolveError (exn_class e)); cbn; now rewrite !app_assoc.
Qed.

Lemma resolve_endpoint_run {Args T : Type} (name : string)
    (func : Args -> nat -> M Resolve T) (args : Args) p conn p0 t0 o :
  get_resolve p = (Return conn, p0, t0) -> heap p0 !! conn = Some o ->
  is_connected o = true ->
  handle_resolve_errors name (require_resolve func) args p
  = (let '(r, p', t) :=
       handle_resolve_errors name (fun a => func a conn) args p0 in
     (r, p', t0 ++ t)).
Proof.
  intros Hg Ho Hc. apply wrapped_after_prefix.
  now rewrite (require_resolve_run _ _ _ _ _ _ _ Hg Ho), Hc.
Qed.

Lemma project_endpoint_run {Args T : Type} (name : string)
    (func : Args -> nat -> Project -> M Resolve T) (args : Args)
    p conn p0 t0 o project :
  get_resolve p = (Return conn, p0, t0) -> heap p0 !! conn = Some o ->
  fst (current_project o) = Return project ->
  handle_resolve_errors name (require_project func) args p
  = (let '(r, p', t) :=
       handle_resolve_errors name (fun a => func a conn project) args p0 in
     (r, p', t0 ++ t)).
Proof.
  intros Hg Ho Hp. apply wrapped_after_prefix.
  now rewrite (require_project_run _ _ _ _ _ _ _ Hg Ho),
              (current_project_connected _ _ Hp), Hp.
Qed.

Lemma timeline_endpoint_run {Args T : Type} (name : string)
    (func : Args -> nat -> Project -> Timeline -> M Resolve T) (args : Args)
    p conn p0 t0 o project timeline :
  get_resolve p = (Return conn, p0, t0) -> heap p0 !! conn = Some o ->
  fst (current_project o) = Return project ->
  fst (current_timeline o) = Return timeline ->
  handle_resolve_errors name (require_timeline func) args p
  = (let '(r, p', t) :=
       handle_resolve_errors name (fun a => func a conn project timeline)
         args p0 in
     (r, p', t0 ++ t)).
Proof.
  intros Hg Ho Hp Ht. apply wrapped_after_prefix.
  now rewrite (require_timeline_run _ _ _ _ _ _ _ Hg Ho),
              (current_project_connected _ _ Hp), Hp, Ht.
Qed.

Lemma media_pool_endpoint_run {Args T : Type} (name : string)
    (func : Args -> nat -> Project -> MediaPool -> M Resolve T) (args : Args)
    p conn p0 t0 o project mp :
  get_resolve p = (Return conn, p0, t0) -> heap p0 !! conn = Some o ->
  fst (current_project o) = Return project ->
  fst (media_pool o) = Return mp ->
  handle_resolve_errors name (require_media_pool func) args p
  = (let '(r, p', t) :=
       handle_resolve_errors name (fun a => func a conn project mp) args p0 in
     (r, p', t0 ++ t)).
Proof.
  intros Hg Ho Hp Ht. apply wrapped_after_prefix.
  now rewrite (require_media_pool_run _ _ _ _ _ _ _ Hg Ho),
              (current_project_connected _ _ Hp), Hp, Ht.
Qed.

End EndpointFacts.

Lemma injectors_check_connection_first_witness :
  require_resolve (fun (_ : unit) _ => retM "reached") tt sim_offline
  = (Raise (new_NotConnectedError None), sim_offline, [])
  /\ require_project (fun (_ : unit) _ _ => retM "reached") tt sim_offline
     = (Raise (new_NotConnectedError None), sim_offline, [])
  /\ require_timeline (fun (_ : unit) _ _ _ => retM "reached") tt sim_offline
     = (Raise (new_NotConnectedError None), sim_offline, [])
  /\ require_media_pool (fun (_ : unit) _ _ _ => retM "reached") tt sim_offline
     = (Raise (new_NotConnectedError None), sim_offline, []).
Proof.
  exact (injectors_check_connection_first
           (fun (_ : unit) _ => retM "reached")
           (fun (_ : unit) _ _ => retM "reached")
           (fun (_ : unit) _ _ _ => retM "reached")
           (fun (_ : unit) _ _ _ => retM "reached")
           tt sim_offline 0 sim_offline [] (sim_conn None)
           eq_refl eq_refl eq_refl).
Defined.

Lemma media_pool_endpoint_answers_witness :
  fst (handle_resolve_errors "list_clips"
         (require_media_pool (fun (_ : unit) _ _ _ => retM "reached")) tt
         (sim_process sim_bare_project (sim_running sim_bare_project)))
  = (Return (inl "Error: Failed to get Media Pool"),
     sim_process sim_bare_project (sim_running sim_bare_project))
  /\ fst (handle_resolve_errors "list_clips"
            (require_media_pool (fun (_ : unit) _ _ _ => retM "reached")) tt
            sim_offline)
     = (Return (inl "Error: Not connected to DaVinci Resolve"), sim_offline).
Proof.
  split.
  - pose proof (media_pool_endpoint_answers "list_clips"
                  (fun (_ : unit) _ _ _ => retM (Resolve := SimApp) "reached") tt
                  (sim_process sim_bare_project (sim_running sim_bare_project))
                  0
                  (sim_process sim_bare_project (sim_running sim_bare_project))
                  [] (sim_conn (Some sim_bare_project)) eq_refl eq_refl)
      as [_ H].
    destruct (H _ eq_refl) as [_ H1].
    destruct (H1 _ eq_refl) as [_ H2].
    destruct (H2 _ eq_refl) as [H3 _].
    destruct (H3 eq_refl) as [line E]. now rewrite E.
  - pose proof (media_pool_endpoint_answers "list_clips"
                  (fun (_ : unit) _ _ _ => retM (Resolve := SimApp) "reached") tt
                  sim_offline 0 sim_offline [] (sim_conn None) eq_refl eq_refl)
      as [H _].
    destruct (H eq_refl) as [line E]. now rewrite E.
Defined.

(** ** The timeline-item tools *)

Section TimelineItemToolFacts.
Context {Resolve : Type} {api : ResolveAPI Resolve} {tapi : ToolsAPI Resolve}.
Implicit Types (p : Process Resolve) (o : ResolveConnection Resolve).
Import timeline_item_tools.

Lemma _get_item_by_id_run conn item_id p o timeline :
  heap p !! conn = Some o ->
  fst (current_timeline o) = Return timeline ->
  _get_item_by_id conn item_id p
  = (match first_item_with_id timeline item_id with
     | Some item => Return item
     | None => Raise (new_ValueError
                        ("Timeline item with ID '" +:+ item_id +:+ "' not found"))
     end, p, []).
Proof.
  intros Ho Ht. unfold _get_item_by_id, first_item_with_id.
  assert (E : liftR conn (fun o => find_timeline_item_by_id o item_id) p
              = (Return (find (has_id item_id) (scan_order timeline)), p, [])).
  { rewrite (liftR_spec _ _ _ _ Ho). unfold find_timeline_item_by_id.
    pose proof (current_timeline_no_calls o) as Hs.
    destruct (current_timeline o) as [ot tt]. simpl in Ht, Hs. subst ot tt.
    unfold bindR, retR. cbn [fst snd app]. do 3 f_equal.
    apply (scan_types_find timeline item_id track_types). }
  rewrite (bindM_Return _ _ _ _ _ _ E).
  now destruct (find (has_id item_id) (scan_order timeline)) as [[[item ty] idx]|].
Qed.

(** X10: with a current timeline, [_get_item_by_id] returns the item with
    the identifier that is scanned first, and raises the built-in
    [ValueError] when there is none; the message is the one
    [TimelineItemNotFoundError] would carry.  The endpoint [get_item_name]
    therefore answers with the name of that item, or with "Error: Timeline
    item with ID '<id>' not found"; the process is not changed. *)
Theorem get_item_name_found_or_error (item_id : string)
    p conn p0 t0 o project timeline :
  get_resolve p = (Return conn, p0, t0) ->
  heap p0 !! conn = Some o ->
  fst (current_project o) = Return project ->
  fst (current_timeline o) = Return timeline ->
  (forall item, first_item_with_id timeline item_id = Some item ->
     _get_item_by_id conn item_id p0 = (Return item, p0, [])
     /\ str (GetUniqueId item) = item_id
     /\ fst (get_item_name item_id p)
        = (Return (inr (TimelineItem_GetName item)), p0))
  /\ (first_item_with_id timeline item_id = None ->
      (exists e, _get_item_by_id conn item_id p0 = (Raise e, p0, [])
                 /\ exn_class e = ValueError
                 /\ exn_str e = exn_str (new_TimelineItemNotFoundError item_id))
      /\ fst (get_item_name item_id p)
         = (Return (inl ("Error: Timeline item with ID '" +:+ item_id
                         +:+ "' not found")), p0)).
Proof.
  intros Hg Ho Hp Ht.
  pose proof (_get_item_by_id_run conn item_id p0 o timeline Ho Ht) as Hrun.
  pose proof (timeline_endpoint_run "get_item_name" get_item_name_func item_id
                _ _ _ _ _ _ _ Hg Ho Hp Ht) as Hend.
  fold (get_item_name item_id p) in Hend.
  split.
  - intros item Hf. rewrite Hf in Hrun. split; [exact Hrun|]. split.
    + unfold first_item_with_id in Hf.
      destruct (find (has_id item_id) (scan_order timeline))
        as [[[it ty] idx]|] eqn:E; [|discriminate].
      injection Hf as ->. destruct (find_some _ _ E) as [_ Hid].
      now apply has_id_true in Hid.
    + rewrite Hend.
      rewrite (handle_resolve_errors_Return "get_item_name" _ item_id p0
                 (TimelineItem_GetName item) p0 []); [reflexivity|].
      unfold get_item_name_func.
      now rewrite (bindM_Return _ _ _ _ _ _ Hrun).
  - intros Hf. rewrite Hf in Hrun. split.
    + eexists. split; [exact Hrun|]. split; reflexivity.
    + rewrite Hend.
      destruct (handle_resolve_errors_Raise "get_item_name"
                  (fun a => get_item_name_func a conn project timeline)
                  item_id p0
                  (new_ValueError ("Timeline item with ID '" +:+ item_id
                                   +:+ "' not found")) p0 []) as [line E].
      * unfold get_item_name_func. now rewrite (bindM_Raise _ _ _ _ _ _ Hrun).
      * now rewrite E.
Qed.

Lemma collect_targets_run conn ids acc p o timeline :
  heap p !! conn = Some o ->
  fst (current_timeline o) = Return timeline ->
  collect_targets conn ids acc p
  = (Return (acc ++ omap (first_item_with_id timeline) ids), p, []).
Proof.
  intros Ho Ht. revert acc. induction ids as [|tid rest IH]; intros acc.
  - cbn. now rewrite app_nil_r.
  - cbn [collect_targets].
    pose proof (_get_item_by_id_run conn tid p o timeline Ho Ht) as Hrun.
    assert (E : try_except_ValueError
                  (bindM (_get_item_by_id conn tid)
                         (fun item => retM (acc ++ [item])))
                  (retM acc) p
                = (Return (acc ++ match first_item_with_id timeline tid with
                                  | Some item => [item] | None => [] end),
                   p, [])).
    { unfold try_except_ValueError.
      destruct (first_item_with_id timeline tid) as [item|].
      - now rewrite (bindM_Return _ _ _ _ _ _ Hrun).
      - rewrite (bindM_Raise _ _ _ _ _ _ Hrun). cbn. now rewrite app_nil_r. }
    rewrite (bindM_Return _ _ _ _ _ _ E), IH. cbn.
    rewrite <- app_assoc. now destruct (first_item_with_id timeline tid).
Qed.

(** X11: [copy_grades] copies to the targets that exist: the identifiers that
    no item carries are dropped without a message, the others keep their
    order.  When the source does not exist the answer is the not-found error
    of the source, whatever the targets; when no target exists the answer is
    "Error: No valid target items found"; in both cases [CopyGrades] is not
    called.  Otherwise [CopyGrades] is called once on the source with the
    existing targets, and the answer counts those targets, not the
    identifiers asked for. *)
Theorem copy_grades_existing_targets (source_item_id : string)
    (target_item_ids : list string) p conn p0 t0 o project timeline :
  get_resolve p = (Return conn, p0, t0) ->
  heap p0 !! conn = Some o ->
  fst (current_project o) = Return project ->
  fst (current_timeline o) = Return timeline ->
  (first_item_with_id timeline source_item_id = None ->
     fst (copy_grades (source_item_id, target_item_ids) p)
     = (Return (inl ("Error: Timeline item with ID '" +:+ source_item_id
                     +:+ "' not found")), p0))
  /\ (forall source, first_item_with_id timeline source_item_id = Some source ->
      (omap (first_item_with_id timeline) target_item_ids = [] ->
         fst (copy_grades (source_item_id, target_item_ids) p)
         = (Return (inr "Error: No valid target items found"), p0))
      /\ (omap (first_item_with_id timeline) target_item_ids <> [] ->
          fst (copy_grades (source_item_id, target_item_ids) p)
          = (let '(r, p', _) :=
               CopyGrades source
                 (omap (first_item_with_id timeline) target_item_ids) p0 in
             (match r with
              | Return true =>
                  Return (inr ("Successfully copied grades to "
                               +:+ str_nat (length (omap (first_item_with_id timeline)
                                                      target_item_ids))
                               +:+ " item(s)"))
              | Return false => Return (inr "Failed to copy grades")
              | Raise e => Return (inl ("Error: " +:+ exn_str e))
              end, p')))).
Proof.
  intros Hg Ho Hp Ht.
  pose proof (_get_item_by_id_run conn source_item_id p0 o timeline Ho Ht)
    as Hsrc.
  pose proof (collect_targets_run conn target_item_ids [] p0 o timeline Ho Ht)
    as Hcol.
  cbn [app] in Hcol.
  pose proof (timeline_endpoint_run "copy_grades" copy_grades_func
                (source_item_id, target_item_ids)
                _ _ _ _ _ _ _ Hg Ho Hp Ht) as Hend.
  fold (copy_grades (source_item_id, target_item_ids) p) in Hend.
  rewrite Hend. clear Hend. split.
  - intros Hf. rewrite Hf in Hsrc.
    destruct (handle_resolve_errors_Raise "copy_grades"
                (fun a => copy_grades_func a conn project timeline)
                (source_item_id, target_item_ids) p0
                (new_ValueError ("Timeline item with ID '" +:+ source_item_id
                                 +:+ "' not found")) p0 []) as [line E].
    + unfold copy_grades_func. now rewrite (bindM_Raise _ _ _ _ _ _ Hsrc).
    + now rewrite E.
  - intros source Hf. rewrite Hf in Hsrc.
    assert (Hbody : copy_grades_func (source_item_id, target_item_ids)
                      conn project timeline p0
                    = match omap (first_item_with_id timeline) target_item_ids
                      with
                      | [] => (Return "Error: No valid target items found", p0, [])
                      | x :: l =>
                          bindM (CopyGrades source (x :: l))
                            (fun ok : bool =>
                               if ok then
                                 retM ("Successfully copied grades to "
                                       +:+ str_nat (length (x :: l))
                                       +:+ " item(s)")
                               else retM "Failed to copy grades") p0
                      end).
    { unfold copy_grades_func.
      rewrite (bindM_Return _ _ _ _ _ _ Hsrc).
      rewrite (bindM_Return _ _ _ _ _ _ Hcol).
      destruct (omap (first_item_with_id timeline) target_item_ids);
        [reflexivity|].
      cbn. now destruct (bindM _ _ p0) as [[r1 p1] t1]. }
    change (copy_grades_func (source_item_id, target_item_ids) conn project
              timeline p0)
      with ((fun a => copy_grades_func a conn project timeline)
              (source_item_id, target_item_ids) p0) in Hbody.
    remember (fun a => copy_grades_func a conn project timeline) as g eqn:Eg.
    split.
    + intros Hnil. rewrite Hnil in Hbody.
      now rewrite (handle_resolve_errors_Return "copy_grades" g _ _ _ _ _ Hbody).
    + intros Hne.
      destruct (omap (first_item_with_id timeline) target_item_ids)
        as [|x l] eqn:El; [now destruct Hne|].
      unfold bindM in Hbody.
      destruct (CopyGrades source (x :: l) p0) as [[[ok|e] p'] t] eqn:Ec.
      * destruct ok; cbn in Hbody;
          now rewrite (handle_resolve_errors_Return "copy_grades" g _ _ _ _ _
                         Hbody).
      * destruct (handle_resolve_errors_Raise "copy_grades" g _ _ _ _ _ Hbody)
          as [line E]. now rewrite E.
Qed.

End TimelineItemToolFacts.

Lemma get_item_name_found_or_error_witness :
  fst (timeline_item_tools.get_item_name "id-dup"
         (sim_process sim_full (sim_running sim_full)))
  = (Return (inr "shot id-dup"), sim_process sim_full (sim_running sim_full))
  /\ timeline_item_tools._get_item_by_id 0 "id-dup"
       (sim_process sim_full (sim_running sim_full))
     = (Return item_dup_video, sim_process sim_full (sim_running sim_full), [])
  /\ fst (timeline_item_tools.get_item_name "id-z"
            (sim_process sim_full (sim_running sim_full)))
     = (Return (inl "Error: Timeline item with ID 'id-z' not found"),
        sim_process sim_full (sim_running sim_full)).
Proof.
  pose proof (get_item_name_found_or_error "id-dup"
                (sim_process sim_full (sim_running sim_full)) 0
                (sim_process sim_full (sim_running sim_full)) []
                (sim_conn (Some sim_full)) _ sim_timeline
                eq_refl eq_refl eq_refl eq_refl) as [Hfound _].
  pose proof (get_item_name_found_or_error "id-z"
                (sim_process sim_full (sim_running sim_full)) 0
                (sim_process sim_full (sim_running sim_full)) []
                (sim_conn (Some sim_full)) _ sim_timeline
                eq_refl eq_refl eq_refl eq_refl) as [_ Hnone].
  destruct (Hfound item_dup_video eq_refl) as (Hget & _ & Hname).
  destruct (Hnone eq_refl) as [_ Herr].
  exact (conj Hname (conj Hget Herr)).
Defined.

Lemma copy_grades_existing_targets_witness :
  fst (timeline_item_tools.copy_grades ("id-x", ["id-z"; "id-y"; "id-dup"])
         (sim_process sim_full (sim_running sim_full)))
  = (Return (inr "Successfully copied grades to 2 item(s)"),
     sim_process sim_full (sim_running sim_full))
  /\ fst (timeline_item_tools.copy_grades ("id-x", ["id-z"])
            (sim_process sim_full (sim_running sim_full)))
     = (Return (inr "Error: No valid target items found"),
        sim_process sim_full (sim_running sim_full)).
Proof.
  split.
  - pose proof (copy_grades_existing_targets "id-x" ["id-z"; "id-y"; "id-dup"]
                  (sim_process sim_full (sim_running sim_full)) 0
                  (sim_process sim_full (sim_running sim_full)) []
                  (sim_conn (Some sim_full)) _ sim_timeline
                  eq_refl eq_refl eq_refl eq_refl) as [_ H].
    destruct (H item_x eq_refl) as [_ H2].
    rewrite H2; [reflexivity | discriminate].
  - pose proof (copy_grades_existing_targets "id-x" ["id-z"]
                  (sim_process sim_full (sim_running sim_full)) 0
                  (sim_process sim_full (sim_running sim_full)) []
                  (sim_conn (Some sim_full)) _ sim_timeline
                  eq_refl eq_refl eq_refl eq_refl) as [_ H].
    destruct (H item_x eq_refl) as [H1 _].
    now rewrite H1.
Defined.

(** ** The media-pool tools *)

Section MediaToolFacts.
Context {Resolve : Type} {api : ResolveAPI Resolve} {tapi : ToolsAPI Resolve}.
Implicit Types (p : Process Resolve) (o : ResolveConnection Resolve).
Import media_tools.

Lemma find_clip_by_name_fst o mp name :
  fst (media_pool o) = Return mp ->
  fst (find_clip_by_name o name) = Return (clip_named mp name).
Proof.
  intros Hmp. unfold find_clip_by_name.
  rewrite (bindR_return _ _ (clips_preorder (GetRootFolder mp))).
  - apply first_clip_named_find.
  - unfold get_all_clips. rewrite (bindR_return _ _ _ Hmp).
    rewrite (bindR_return (emitR ev_GetRootFolder) _ tt eq_refl).
    apply get_all_clips_from_preorder.
Qed.

Lemma find_folder_by_name_fst o mp name :
  fst (media_pool o) = Return mp ->
  fst (find_folder_by_name o name) = Return (folder_named mp name).
Proof.
  intros Hmp. unfold find_folder_by_name, folder_named.
  destruct (str_in (lower name) ["root"; "master"]).
  - rewrite (bindR_return _ _ _ Hmp).
    now rewrite (bindR_return (emitR ev_GetRootFolder) _ tt eq_refl).
  - rewrite (bindR_return _ _ (folders_preorder (GetRootFolder mp))).
    + apply first_folder_named_find.
    + unfold get_all_folders. rewrite (bindR_return _ _ _ Hmp).
      rewrite (bindR_return (emitR ev_GetRootFolder) _ tt eq_refl).
      apply get_all_folders_from_preorder.
Qed.

Lemma collect_clips_run conn names acc p o mp :
  heap p !! conn = Some o ->
  fst (media_pool o) = Return mp ->
  exists t,
    collect_clips conn names acc p
    = (Return (acc ++ omap (clip_named mp) names), p, t).
Proof.
  intros Ho Hmp. revert acc. induction names as [|name rest IH]; intros acc.
  - exists []. cbn. now rewrite app_nil_r.
  - cbn [collect_clips].
    assert (E : liftR conn (fun o => find_clip_by_name o name) p
                = (Return (clip_named mp name), p,
                   snd (find_clip_by_name o name))).
    { rewrite (liftR_spec _ _ _ _ Ho).
      now rewrite (find_clip_by_name_fst _ _ _ Hmp). }
    rewrite (bindM_Return _ _ _ _ _ _ E).
    destruct (IH (match clip_named mp name with
                  | Some c => acc ++ [c] | None => acc end)) as [t Ht].
    rewrite Ht. eexists. cbn. f_equal. f_equal. f_equal.
    destruct (clip_named mp name); [now rewrite <- app_assoc | reflexivity].
Qed.

(** X12: [delete_clips] deletes the clips that exist: each name is looked up
    in the media pool, names that no clip carries are dropped without a
    message, and a name given twice yields its clip twice.  When none of the
    names is found the answer is "Error: No matching clips found" and
    [DeleteClips] is not called; otherwise [DeleteClips] is called once with
    the clips found, and the answer counts those clips. *)
Theorem delete_clips_existing_only (clip_names : list string)
    p conn p0 t0 o project mp :
  get_resolve p = (Return conn, p0, t0) ->
  heap p0 !! conn = Some o ->
  fst (current_project o) = Return project ->
  fst (media_pool o) = Return mp ->
  (omap (clip_named mp) clip_names = [] ->
     fst (delete_clips clip_names p)
     = (Return (inr "Error: No matching clips found"), p0))
  /\ (omap (clip_named mp) clip_names <> [] ->
      fst (delete_clips clip_names p)
      = (let '(r, p', _) :=
           DeleteClips mp (omap (clip_named mp) clip_names) p0 in
         (match r with
          | Return true =>
              Return (inr ("Successfully deleted "
                           +:+ str_nat (length (omap (clip_named mp) clip_names))
                           +:+ " clip(s)"))
          | Return false => Return (inr "Failed to delete clips")
          | Raise e => Return (inl ("Error: " +:+ exn_str e))
          end, p'))).
Proof.
  intros Hg Ho Hp Hmp.
  destruct (collect_clips_run conn clip_names [] p0 o mp Ho Hmp) as [tc Hcol].
  cbn [app] in Hcol.
  pose proof (media_pool_endpoint_run "delete_clips" delete_clips_func
                clip_names _ _ _ _ _ _ _ Hg Ho Hp Hmp) as Hend.
  fold (delete_clips clip_names p) in Hend. rewrite Hend. clear Hend.
  assert (Hbody : (fun a => delete_clips_func a conn project mp) clip_names p0
                  = match omap (clip_named mp) clip_names with
                    | [] => (Return "Error: No matching clips found", p0, tc)
                    | x :: l =>
                        let '(r, p', t) :=
                          bindM (DeleteClips mp (x :: l))
                            (fun ok : bool =>
                               if ok then
                                 retM ("Successfully deleted "
                                       +:+ str_nat (length (x :: l))
                                       +:+ " clip(s)")
                               else retM "Failed to delete clips") p0 in
                        (r, p', tc ++ t)
                    end).
  { cbv beta. unfold delete_clips_func.
    rewrite (bindM_Return _ _ _ _ _ _ Hcol).
    destruct (omap (clip_named mp) clip_names);
      [cbn; now rewrite app_nil_r | reflexivity]. }
  remember (fun a => delete_clips_func a conn project mp) as g eqn:Eg.
  split.
  - intros Hnil. rewrite Hnil in Hbody.
    now rewrite (handle_resolve_errors_Return "delete_clips" g _ _ _ _ _ Hbody).
  - intros Hne.
    destruct (omap (clip_named mp) clip_names) as [|x l] eqn:El;
      [now destruct Hne|].
    unfold bindM in Hbody.
    destruct (DeleteClips mp (x :: l) p0) as [[[ok|e] p'] t] eqn:Ec.
    + destruct ok; cbn in Hbody;
        now rewrite (handle_resolve_errors_Return "delete_clips" g _ _ _ _ _
                       Hbody).
    + destruct (handle_resolve_errors_Raise "delete_clips" g _ _ _ _ _ Hbody)
        as [line E]. now rewrite E.
Qed.

(** X13: [move_clips] looks the clips up first: when none of the names is
    found the answer is "Error: No matching clips found", whether or not the
    target folder exists.  With clips found, a target that is "root" or
    "master" up to case is the root folder of the media pool; any other
    target is the first folder of that exact name, and when there is none
    the answer is "Error: Folder '<name>' not found"; in neither error case
    is [MoveClips] called.  Otherwise [MoveClips] is called once with the
    clips found and the folder, and the answer counts the clips found. *)
Theorem move_clips_checks_clips_then_folder (clip_names : list string)
    (target_folder_name : string) p conn p0 t0 o project mp :
  get_resolve p = (Return conn, p0, t0) ->
  heap p0 !! conn = Some o ->
  fst (current_project o) = Return project ->
  fst (media_pool o) = Return mp ->
  (omap (clip_named mp) clip_names = [] ->
     fst (move_clips (clip_names, target_folder_name) p)
     = (Return (inr "Error: No matching clips found"), p0))
  /\ (omap (clip_named mp) clip_names <> [] ->
      (folder_named mp target_folder_name = None ->
         fst (move_clips (clip_names, target_folder_name) p)
         = (Return (inr ("Error: Folder '" +:+ target_folder_name
                         +:+ "' not found")), p0))
      /\ (forall folder, folder_named mp target_folder_name = Some folder ->
          fst (move_clips (clip_names, target_folder_name) p)
          = (let '(r, p', _) :=
               MoveClips mp (omap (clip_named mp) clip_names) folder p0 in
             (match r with
              | Return true =>
                  Return (inr ("Successfully moved "
                               +:+ str_nat (length (omap (clip_named mp)
                                                      clip_names))
                               +:+ " clip(s)"))
              | Return false => Return (inr "Failed to move clips")
              | Raise e => Return (inl ("Error: " +:+ exn_str e))
              end, p'))))
  /\ (is_root_alias target_folder_name ->
      folder_named mp target_folder_name = Some (GetRootFolder mp)).
Proof.
  intros Hg Ho Hp Hmp.
  destruct (collect_clips_run conn clip_names [] p0 o mp Ho Hmp) as [tc Hcol].
  cbn [app] in Hcol.
  pose proof (media_pool_endpoint_run "move_clips" move_clips_func
                (clip_names, target_folder_name)
                _ _ _ _ _ _ _ Hg Ho Hp Hmp) as Hend.
  fold (move_clips (clip_names, target_folder_name) p) in Hend.
  rewrite Hend. clear Hend.
  assert (Hfold : liftR conn (fun o => find_folder_by_name o target_folder_name) p0
                  = (Return (folder_named mp target_folder_name), p0,
                     snd (find_folder_by_name o target_folder_name))).
  { rewrite (liftR_spec _ _ _ _ Ho).
    now rewrite (find_folder_by_name_fst _ _ _ Hmp). }
  assert (Hbody : (fun a => move_clips_func a conn project mp)
                    (clip_names, target_folder_name) p0
                  = match omap (clip_named mp) clip_names with
                    | [] => (Return "Error: No matching clips found", p0, tc)
                    | x :: l =>
                        match folder_named mp target_folder_name with
                        | None =>
                            (Return ("Error: Folder '" +:+ target_folder_name
                                     +:+ "' not found"), p0,
                             tc ++ snd (find_folder_by_name o target_folder_name))
                        | Some folder =>
                            let '(r, p', t) :=
                              bindM (MoveClips mp (x :: l) folder)
                                (fun ok : bool =>
                                   if ok then
                                     retM ("Successfully moved "
                                           +:+ str_nat (length (x :: l))
                                           +:+ " clip(s)")
                                   else retM "Failed to move clips") p0 in
                            (r, p',
                             tc ++ snd (find_folder_by_name o target_folder_name)
                                ++ t)
                        end
                    end).
  { cbv beta. unfold move_clips_func.
    rewrite (bindM_Return _ _ _ _ _ _ Hcol).
    destruct (omap (clip_named mp) clip_names);
      [cbn; now rewrite app_nil_r|].
    rewrite (bindM_Return _ _ _ _ _ _ Hfold).
    destruct (folder_named mp target_folder_name) as [folder|].
    - now destruct (bindM _ _ p0) as [[r1 p1] t1].
    - cbn. now rewrite app_nil_r. }
  remember (fun a => move_clips_func a conn project mp) as g eqn:Eg.
  split; [|split].
  - intros Hnil. rewrite Hnil in Hbody.
    now rewrite (handle_resolve_errors_Return "move_clips" g _ _ _ _ _ Hbody).
  - intros Hne.
    destruct (omap (clip_named mp) clip_names) as [|x l] eqn:El;
      [now destruct Hne|].
    split.
    + intros Hnone. rewrite Hnone in Hbody.
      now rewrite (handle_resolve_errors_Return "move_clips" g _ _ _ _ _ Hbody).
    + intros folder Hsome. rewrite Hsome in Hbody.
      unfold bindM in Hbody.
      destruct (MoveClips mp (x :: l) folder p0) as [[[ok|e] p'] t] eqn:Ec.
      * destruct ok; cbn in Hbody;
          now rewrite (handle_resolve_errors_Return "move_clips" g _ _ _ _ _
                         Hbody).
      * destruct (handle_resolve_errors_Raise "move_clips" g _ _ _ _ _ Hbody)
          as [line E]. now rewrite E.
  - intros Halias. unfold folder_named.
    now rewrite (proj2 (str_in_root_alias target_folder_name) Halias).
Qed.

End MediaToolFacts.

Lemma delete_clips_existing_only_witness :
  fst (media_tools.delete_clips ["c.mov"; "zz.mov"; "c.mov"]
         (sim_process sim_full (sim_running sim_full)))
  = (Return (inr "Successfully deleted 2 clip(s)"),
     sim_process sim_full (sim_running sim_full))
  /\ fst (media_tools.delete_clips ["zz.mov"]
            (sim_process sim_full (sim_running sim_full)))
     = (Return (inr "Error: No matching clips found"),
        sim_process sim_full (sim_running sim_full)).
Proof.
  split.
  - pose proof (delete_clips_existing_only ["c.mov"; "zz.mov"; "c.mov"]
                  (sim_process sim_full (sim_running sim_full)) 0
                  (sim_process sim_full (sim_running sim_full)) []
                  (sim_conn (Some sim_full)) _ (mkMediaPool sim_root)
                  eq_refl eq_refl eq_refl eq_refl) as [_ H].
    rewrite H; [reflexivity | discriminate].
  - pose proof (delete_clips_existing_only ["zz.mov"]
                  (sim_process sim_full (sim_running sim_full)) 0
                  (sim_process sim_full (sim_running sim_full)) []
                  (sim_conn (Some sim_full)) _ (mkMediaPool sim_root)
                  eq_refl eq_refl eq_refl eq_refl) as [H _].
    now rewrite H.
Defined.

Lemma move_clips_checks_clips_then_folder_witness :
  fst (media_tools.move_clips (["a.mov"; "d.mov"], "MASTER")
         (sim_process sim_full (sim_running sim_full)))
  = (Return (inr "Successfully moved 2 clip(s)"),
     sim_process sim_full (sim_running sim_full))
  /\ fst (media_tools.move_clips (["a.mov"], "Day 3")
            (sim_process sim_full (sim_running sim_full)))
     = (Return (inr "Error: Folder 'Day 3' not found"),
        sim_process sim_full (sim_running sim_full))
  /\ fst (media_tools.move_clips (["zz.mov"], "Day 3")
            (sim_process sim_full (sim_running sim_full)))
     = (Return (inr "Error: No matching clips found"),
        sim_process sim_full (sim_running sim_full)).
Proof.
  split; [|split].
  - pose proof (move_clips_checks_clips_then_folder ["a.mov"; "d.mov"] "MASTER"
                  (sim_process sim_full (sim_running sim_full)) 0
                  (sim_process sim_full (sim_running sim_full)) []
                  (sim_conn (Some sim_full)) _ (mkMediaPool sim_root)
                  eq_refl eq_refl eq_refl eq_refl) as (_ & H & _).
    destruct H as [_ H]; [discriminate|].
    now rewrite (H sim_root eq_refl).
  - pose proof (move_clips_checks_clips_then_folder ["a.mov"] "Day 3"
                  (sim_process sim_full (sim_running sim_full)) 0
                  (sim_process sim_full (sim_running sim_full)) []
                  (sim_conn (Some sim_full)) _ (mkMediaPool sim_root)
                  eq_refl eq_refl eq_refl eq_refl) as (_ & H & _).
    destruct H as [H _]; [discriminate|].
    now rewrite (H eq_refl).
  - pose proof (move_clips_checks_clips_then_folder ["zz.mov"] "Day 3"
                  (sim_process sim_full (sim_running sim_full)) 0
                  (sim_process sim_full (sim_running sim_full)) []
                  (sim_conn (Some sim_full)) _ (mkMediaPool sim_root)
                  eq_refl eq_refl eq_refl eq_refl) as (H & _).
    now rewrite (H eq_refl).
Defined.

(** ** The timeline tools *)

Section TimelineToolFacts.
Context {Resolve : Type} {api : ResolveAPI Resolve} {papi : ProjectAPI}
        {tapi : ToolsAPI Resolve}.
Implicit Types (p : Process Resolve) (o : ResolveConnection Resolve).
Import timeline_tools.

Lemma scan_timelines_find (project : Project) (name : string) (idxs : list Z) :
  scan_timelines project name idxs
  = find (fun timeline => String.eqb (Timeline_GetName timeline) name)
         (omap (GetTimelineByIndex project) idxs).
Proof.
  induction idxs as [|i rest IH]; [reflexivity|]. cbn.
  destruct (GetTimelineByIndex project i) as [timeline|]; [|exact IH].
  cbn. now destruct (String.eqb (Timeline_GetName timeline) name).
Qed.

Lemma find_timeline_by_name_run conn name p o project :
  heap p !! conn = Some o ->
  fst (current_project o) = Return project ->
  liftR conn (fun o => find_timeline_by_name o name) p
  = (Return (timeline_named project name), p, []).
Proof.
  intros Ho Hp. rewrite (liftR_spec _ _ _ _ Ho). unfold find_timeline_by_name.
  pose proof (current_project_no_calls o) as Hs.
  destruct (current_project o) as [op tp]. simpl in Hp, Hs. subst op tp.
  unfold bindR, retR. cbn [fst snd app]. do 3 f_equal.
  rewrite range_from_1. apply scan_timelines_find.
Qed.

(** X14: [set_current_timeline] switches to the first timeline of the given
    name in index order.  When the project has no timeline of that name the
    answer is "Error: Timeline '<name>' not found" and [SetCurrentTimeline]
    is not called; otherwise it is called once on the project with that
    timeline, and the answer reports its success or failure. *)
Theorem set_current_timeline_first_named (name : string)
    p conn p0 t0 o project :
  get_resolve p = (Return conn, p0, t0) ->
  heap p0 !! conn = Some o ->
  fst (current_project o) = Return project ->
  (timeline_named project name = None ->
     fst (set_current_timeline name p)
     = (Return (inr ("Error: Timeline '" +:+ name +:+ "' not found")), p0))
  /\ (forall timeline, timeline_named project name = Some timeline ->
      Timeline_GetName timeline = name
      /\ fst (set_current_timeline name p)
         = (let '(r, p', _) := SetCurrentTimeline project timeline p0 in
            (match r with
             | Return true =>
                 Return (inr ("Successfully switched to timeline '" +:+ name
                              +:+ "'"))
             | Return false =>
                 Return (inr ("Failed to switch to timeline '" +:+ name +:+ "'"))
             | Raise e => Return (inl ("Error: " +:+ exn_str e))
             end, p'))).
Proof.
  intros Hg Ho Hp.
  pose proof (find_timeline_by_name_run conn name p0 o project Ho Hp) as Hfind.
  pose proof (project_endpoint_run "set_current_timeline"
                set_current_timeline_func name _ _ _ _ _ _ Hg Ho Hp) as Hend.
  fold (set_current_timeline name p) in Hend. rewrite Hend. clear Hend.
  assert (Hbody : (fun a => set_current_timeline_func a conn project) name p0
                  = match timeline_named project name with
                    | None =>
                        (Return ("Error: Timeline '" +:+ name +:+ "' not found"),
                         p0, [])
                    | Some timeline =>
                        bindM (SetCurrentTimeline project timeline)
                          (fun ok : bool =>
                             if ok then
                               retM ("Successfully switched to timeline '"
                                     +:+ name +:+ "'")
                             else
                               retM ("Failed to switch to timeline '" +:+ name
                                     +:+ "'")) p0
                    end).
  { cbv beta. unfold set_current_timeline_func.
    rewrite (bindM_Return _ _ _ _ _ _ Hfind).
    destruct (timeline_named project name); [|reflexivity].
    now destruct (bindM _ _ p0) as [[r1 p1] t1]. }
  remember (fun a => set_current_timeline_func a conn project) as g eqn:Eg.
  split.
  - intros Hnone. rewrite Hnone in Hbody.
    now rewrite (handle_resolve_errors_Return "set_current_timeline" g
                   _ _ _ _ _ Hbody).
  - intros timeline Hsome. split.
    + apply find_some in Hsome as [_ Hn]. now apply String.eqb_eq in Hn.
    + rewrite Hsome in Hbody. unfold bindM in Hbody.
      destruct (SetCurrentTimeline project timeline p0) as [[[ok|e] p'] t] eqn:Ec.
      * destruct ok; cbn in Hbody;
          now rewrite (handle_resolve_errors_Return "set_current_timeline" g
                         _ _ _ _ _ Hbody).
      * destruct (handle_resolve_errors_Raise "set_current_timeline" g
                    _ _ _ _ _ Hbody) as [line E]. now rewrite E.
Qed.

Lemma lower_ascii_idempotent (c : ascii) :
  lower_ascii (lower_ascii c) = lower_ascii c.
Proof. destruct c as [[] [] [] [] [] [] [] []]; reflexivity. Qed.

Lemma lower_idempotent (s : string) : lower (lower s) = lower s.
Proof.
  induction s as [|c s IH]; [reflexivity|]. cbn [lower].
  now rewrite lower_ascii_idempotent, IH.
Qed.

(** X15: [get_track_count] accepts exactly the three names video, audio and
    subtitle as they are written: unlike the page names, a track type is not
    lower-cased first, so a name that is not in lower case is rejected.  A
    rejected name gives "Error: Invalid track type. Must be one of:
    ['video', 'audio', 'subtitle']"; an accepted one gives the count the
    timeline reports.  The process is not changed. *)
Theorem get_track_count_case_sensitive (track_type : string)
    p conn p0 t0 o project timeline :
  get_resolve p = (Return conn, p0, t0) ->
  heap p0 !! conn = Some o ->
  fst (current_project o) = Return project ->
  fst (current_timeline o) = Return timeline ->
  (In track_type ["video"; "audio"; "subtitle"] ->
     fst (get_track_count track_type p)
     = (Return (inr (GetTrackCount timeline track_type)), p0))
  /\ (~ In track_type ["video"; "audio"; "subtitle"] ->
      fst (get_track_count track_type p)
      = (Return (inl "Error: Invalid track type. Must be one of: ['video', 'audio', 'subtitle']"),
         p0))
  /\ (lower track_type <> track_type ->
      ~ In track_type ["video"; "audio"; "subtitle"]).
Proof.
  intros Hg Ho Hp Ht.
  pose proof (timeline_endpoint_run "get_track_count" get_track_count_func
                track_type _ _ _ _ _ _ _ Hg Ho Hp Ht) as Hend.
  fold (get_track_count track_type p) in Hend. rewrite Hend. clear Hend.
  split; [|split].
  - intros H. apply str_in_In in H.
    rewrite (handle_resolve_errors_Return "get_track_count"
               (fun a => get_track_count_func a conn project timeline)
               track_type p0 (GetTrackCount timeline track_type) p0 []);
      [reflexivity|].
    unfold get_track_count_func. now rewrite H.
  - intros H.
    assert (E : str_in track_type ["video"; "audio"; "subtitle"] = false).
    { destruct (str_in track_type ["video"; "audio"; "subtitle"]) eqn:E;
        [|reflexivity]. now apply str_in_In in E. }
    destruct (handle_resolve_errors_Raise "get_track_count"
                (fun a => get_track_count_func a conn project timeline)
                track_type p0
                (new_ValueError "Invalid track type. Must be one of: ['video', 'audio', 'subtitle']")
                p0 []) as [line El].
    + unfold get_track_count_func. now rewrite E.
    + now rewrite El.
  - intros Hl [<-|[<-|[<-|[]]]]; now apply Hl.
Qed.

End TimelineToolFacts.


Lemma set_current_timeline_first_named_witness :
  timeline_named (mkProject (Some (mkMediaPool sim_root)) (Some sim_timeline)
                            (Some (gallery_handle 1))) "Timeline 1"
  = Some sim_timeline
  /\ fst (timeline_tools.set_current_timeline "Timeline 1"
            (sim_process sim_full (sim_running sim_full)))
     = (Return (inr "Successfully switched to timeline 'Timeline 1'"),
        sim_process sim_full (sim_running sim_full))
  /\ fst (timeline_tools.set_current_timeline "Rough cut"
            (sim_process sim_full (sim_running sim_full)))
     = (Return (inr "Error: Timeline 'Rough cut' not found"),
        sim_process sim_full (sim_running sim_full)).
Proof.
  split; [reflexivity|]. split.
  - pose proof (set_current_timeline_first_named "Timeline 1"
                  (sim_process sim_full (sim_running sim_full)) 0
                  (sim_process sim_full (sim_running sim_full)) []
                  (sim_conn (Some sim_full)) _
                  eq_refl eq_refl eq_refl) as [_ H].
    destruct (H sim_timeline eq_refl) as [_ E]. now rewrite E.
  - pose proof (set_current_timeline_first_named "Rough cut"
                  (sim_process sim_full (sim_running sim_full)) 0
                  (sim_process sim_full (sim_running sim_full)) []
                  (sim_conn (Some sim_full)) _
                  eq_refl eq_refl eq_refl) as [H _].
    now rewrite (H eq_refl).
Defined.

Lemma get_track_count_case_sensitive_witness :
  fst (timeline_tools.get_track_count "audio"
         (sim_process sim_full (sim_running sim_full)))
  = (Return (inr 1%Z), sim_process sim_full (sim_running sim_full))
  /\ fst (timeline_tools.get_track_count "Video"
            (sim_process sim_full (sim_running sim_full)))
     = (Return (inl "Error: Invalid track type. Must be one of: ['video', 'audio', 'subtitle']"),
        sim_process sim_full (sim_running sim_full)).
Proof.
  split.
  - pose proof (get_track_count_case_sensitive "audio"
                  (sim_process sim_full (sim_running sim_full)) 0
                  (sim_process sim_full (sim_running sim_full)) []
                  (sim_conn (Some sim_full)) _ sim_timeline
                  eq_refl eq_refl eq_refl eq_refl) as (H & _).
    rewrite H; [reflexivity | simpl; tauto].
  - pose proof (get_track_count_case_sensitive "Video"
                  (sim_process sim_full (sim_running sim_full)) 0
                  (sim_process sim_full (sim_running sim_full)) []
                  (sim_conn (Some sim_full)) _ sim_timeline
                  eq_refl eq_refl eq_refl eq_refl) as (_ & H & Hcase).
    apply H, Hcase. discriminate.
Defined.
(** ** The page tools and the page-scoped wrapper *)

Section PageToolFacts.
Context {Resolve : Type} {api : ResolveAPI Resolve}.
Implicit Types (p : Process Resolve) (o : ResolveConnection Resolve).

Lemma switch_page_run conn page p o :
  heap p !! conn = Some o ->
  switch_page conn page p
  = (if str_in (lower page) valid_pages then
       match _resolve o with
       | Some r =>
           (Return (fst (OpenPage (lower page) r)),
            set_heap (<[conn := with__resolve o
                                  (Some (snd (OpenPage (lower page) r)))]>
                        (heap p)) p,
            [ev_switch_page page; ev_OpenPage (lower page)])
       | None => (Raise (new_NotConnectedError None), p, [ev_switch_page page])
       end
     else (Raise (new_ValueError invalid_page_message), p, [ev_switch_page page])).
Proof.
  intros H. unfold switch_page. unfold bindM at 1. unfold emitM at 1.
  destruct (str_in (lower page) valid_pages); [|reflexivity].
  cbn [negb]. unfold liftR, resolve, bindM, load, emitM, retM.
  rewrite H. destruct (_resolve o) as [r|]; [|reflexivity]. cbn.
  destruct (OpenPage (lower page) r) as [ok r'] eqn:E. cbn.
  rewrite (set__resolve_spec _ _ _ _ H). reflexivity.
Qed.

(** X16: the page tool validates the lower-cased page itself, so the
    [ValueError] of the facade cannot arise under it: on a connected facade
    the answer is always given by the tool.  For a string that is no page
    name it is "Error: Invalid page. Must be one of: ...", the very text the
    facade's exception would give, and nothing is forwarded; for a page name
    the lower-cased name is forwarded once and the answer reports what
    [OpenPage] returned. *)
Theorem page_tool_answers (page : string) p conn p0 t0 o r :
  get_resolve p = (Return conn, p0, t0) ->
  heap p0 !! conn = Some o ->
  _resolve o = Some r ->
  (~ is_page_name page ->
     resolve_tools.switch_page page p
     = (Return (inr ("Error: " +:+ invalid_page_message)), p0, t0))
  /\ (is_page_name page ->
      resolve_tools.switch_page page p
      = (Return (inr (if fst (OpenPage (lower page) r)
                      then "Successfully switched to " +:+ lower page +:+ " page"
                      else "Failed to switch to " +:+ lower page +:+ " page")),
         set_heap (<[conn := with__resolve o
                               (Some (snd (OpenPage (lower page) r)))]>
                     (heap p0)) p0,
         t0 ++ [ev_switch_page (lower page); ev_OpenPage (lower page)])).
Proof.
  intros Hg Ho Hr.
  assert (Hc : is_connected o = true) by (unfold is_connected; now rewrite Hr).
  pose proof (resolve_endpoint_run "switch_page" resolve_tools.switch_page_func
                page _ _ _ _ _ Hg Ho Hc) as Hend.
  fold (resolve_tools.switch_page page p) in Hend. rewrite Hend. clear Hend.
  split.
  - intros Hv.
    assert (E : str_in (lower page) valid_pages = false).
    { destruct (str_in (lower page) valid_pages) eqn:E; [|reflexivity].
      now apply str_in_valid_pages in E. }
    rewrite (handle_resolve_errors_Return "switch_page"
               (fun a => resolve_tools.switch_page_func a conn) page p0
               ("Error: " +:+ invalid_page_message) p0 []).
    + now rewrite app_nil_r.
    + unfold resolve_tools.switch_page_func. now rewrite E.
  - intros Hv. apply str_in_valid_pages in Hv.
    pose proof (switch_page_run conn (lower page) p0 o Ho) as Hrun.
    rewrite lower_idempotent, Hv, Hr in Hrun.
    rewrite (handle_resolve_errors_Return "switch_page"
               (fun a => resolve_tools.switch_page_func a conn) page p0
               (if fst (OpenPage (lower page) r)
                then "Successfully switched to " +:+ lower page +:+ " page"
                else "Failed to switch to " +:+ lower page +:+ " page")
               (set_heap (<[conn := with__resolve o
                                      (Some (snd (OpenPage (lower page) r)))]>
                            (heap p0)) p0)
               [ev_switch_page (lower page); ev_OpenPage (lower page)]);
      [reflexivity|].
    unfold resolve_tools.switch_page_func. rewrite Hv. cbn [negb].
    rewrite (bindM_Return _ _ _ _ _ _ Hrun).
    now destruct (fst (OpenPage (lower page) r)).
Qed.

(** X17: two ways in which the page-scoped wrapper never reaches its
    handler.  Without a handle the current page cannot be recorded: the call
    raises not-connected, and nothing is switched.  With a handle, a target
    that is no page name and differs from the recorded non-empty page makes
    the first switch raise [ValueError]; the restoring call is made all the
    same, and unless it raises too the [ValueError] is what the call
    raises.  In both cases the result does not depend on the handler. *)
Theorem with_page_handler_not_reached {Args T : Type} (page : string)
    (func : Args -> M Resolve T) (args : Args) p conn p0 t0 o :
  get_resolve p = (Return conn, p0, t0) ->
  heap p0 !! conn = Some o ->
  (_resolve o = None ->
     with_page page func args p = (Raise (new_NotConnectedError None), p0, t0))
  /\ (forall r original_page,
        _resolve o = Some r ->
        GetCurrentPage r = Some original_page ->
        original_page <> "" -> original_page <> page ->
        ~ is_page_name page ->
        with_page page func args p
        = (let '(ob, p3, tb) := switch_page conn original_page p0 in
           (match ob with
            | Return _ => Raise (new_ValueError invalid_page_message)
            | Raise e => Raise e
            end, p3,
            t0 ++ [ev_GetCurrentPage; ev_switch_page page] ++ tb))).
Proof.
  intros Hg Ho. split.
  - intros Hr. unfold with_page.
    rewrite (bindM_Return _ _ p conn p0 t0 Hg).
    assert (E : liftR conn get_current_page p0
                = (Raise (new_NotConnectedError None), p0, [])).
    { rewrite (liftR_spec _ _ _ _ Ho). unfold get_current_page, resolve.
      now rewrite Hr. }
    rewrite (bindM_Raise _ _ _ _ _ _ E). now rewrite app_nil_r.
  - intros r original_page Hr Hpage Hne Hdiff Hinv. unfold with_page.
    rewrite (bindM_Return _ _ p conn p0 t0 Hg).
    rewrite (bindM_Return _ _ p0 _ p0 _ (get_current_page_spec _ _ _ _ Ho Hr)).
    rewrite Hpage. unfold try_finally.
    assert (Hpy : py_ne (Some original_page) page = true).
    { cbn. apply negb_true_iff, String.eqb_neq, Hdiff. }
    assert (Htr : truthy_str (Some original_page) = true)
      by (destruct original_page; [now destruct Hne | reflexivity]).
    rewrite Hpy, Htr. cbn [andb default].
    assert (E : str_in (lower page) valid_pages = false).
    { destruct (str_in (lower page) valid_pages) eqn:E; [|reflexivity].
      now apply str_in_valid_pages in E. }
    pose proof (switch_page_run conn page p0 o Ho) as Hsw. rewrite E in Hsw.
    unfold bindM at 1. unfold bindM at 1. rewrite Hsw.
    unfold bindM at 1. unfold id.
    destruct (switch_page conn original_page p0) as [[[ok|e] p3] tb];
      cbn; now rewrite ?app_nil_r.
Qed.

End PageToolFacts.

Lemma page_tool_answers_witness :
  fst (fst (resolve_tools.switch_page "Color"
              (sim_process sim_full (sim_running sim_full))))
  = Return (inr "Successfully switched to color page")
  /\ resolve_tools.switch_page "colour"
       (sim_process sim_full (sim_running sim_full))
     = (Return (inr "Error: Invalid page. Must be one of: media, cut, edit, fusion, color, fairlight, deliver"),
        sim_process sim_full (sim_running sim_full), []).
Proof.
  pose proof (page_tool_answers "Color"
                (sim_process sim_full (sim_running sim_full)) 0
                (sim_process sim_full (sim_running sim_full)) []
                (sim_conn (Some sim_full)) sim_full
                eq_refl eq_refl eq_refl) as [_ H1].
  pose proof (page_tool_answers "colour"
                (sim_process sim_full (sim_running sim_full)) 0
                (sim_process sim_full (sim_running sim_full)) []
                (sim_conn (Some sim_full)) sim_full
                eq_refl eq_refl eq_refl) as [H2 _].
  split.
  - rewrite H1; [reflexivity|]. apply str_in_valid_pages. reflexivity.
  - apply H2. intros H. apply str_in_valid_pages in H. discriminate.
Defined.

Lemma with_page_handler_not_reached_witness :
  with_page "colour" greeting_handler "Ada" sim_offline
  = (Raise (new_NotConnectedError None), sim_offline, [])
  /\ fst (fst (with_page "colour" greeting_handler "Ada"
                 (sim_process sim_full (sim_running sim_full))))
     = Raise (new_ValueError invalid_page_message)
  /\ snd (with_page "colour" greeting_handler "Ada"
            (sim_process sim_full (sim_running sim_full)))
     = [ev_GetCurrentPage; ev_switch_page "colour"; ev_switch_page "edit";
        ev_OpenPage "edit"].
Proof.
  pose proof (with_page_handler_not_reached "colour" greeting_handler "Ada"
                sim_offline 0 sim_offline [] (sim_conn None)
                eq_refl eq_refl) as [H1 _].
  pose proof (with_page_handler_not_reached "colour" greeting_handler "Ada"
                (sim_process sim_full (sim_running sim_full)) 0
                (sim_process sim_full (sim_running sim_full)) []
                (sim_conn (Some sim_full)) eq_refl eq_refl) as [_ H2].
  split; [exact (H1 eq_refl)|].
  rewrite (H2 sim_full "edit" eq_refl eq_refl); try discriminate.
  - split; reflexivity.
  - intros H. apply str_in_valid_pages in H. discriminate.
Defined.
